(** * Breathline: the breath-line loop and its NFT cross-verification

    A shallow embedding of [Breathline.py] and the properties of its
    verifier ([cross_verify_nfts]), of its decision stub ([think]) and of
    the cycle orchestrator ([main]).

    Python values are embedded as follows.
    - [str] is a sequence of Unicode code points, [list N];
    - [bytes] is a sequence of octets, [list N] with every element below 256;
    - a [Dict[str, str]] is the list of its items in insertion order;
    - [float] is IEEE 754 binary64, the kernel's primitive [float];
    - objects with mutable attributes ([NFT] instances) live in a heap that
      the program state carries, and are named by references;
    - [print], the random source, the clock and [time.sleep] are effects on
      a [World], recorded in an event trace. *)

From Stdlib Require Import NArith ZArith List Lia PrimFloat FloatOps.
From Stdlib Require Import SpecFloat FloatAxioms.
From Stdlib Require Ascii String.
From stdpp Require Import base list gmap.
Import String.StringSyntax.
Delimit Scope string_scope with string.

(** ** Strings and bytes *)

Abbreviation str := (list N).
Abbreviation bytes := (list N).

(** The code points of a literal. *)
Definition py (s : String.string) : str :=
  map Ascii.N_of_ascii (String.list_ascii_of_string s).
Arguments py s%_string.

Fixpoint join (sep : str) (parts : list str) : str :=
  match parts with
  | [] => []
  | [p] => p
  | p :: rest => p ++ sep ++ join sep rest
  end.

(** ** hashlib.sha256 (FIPS 180-4) *)

Module SHA256.
Local Open Scope N_scope.

Definition mask32 (x : N) : N := N.land x 0xFFFFFFFF.
Definition add32 (x y : N) : N := mask32 (x + y).
Definition not32 (x : N) : N := N.lxor (mask32 x) 0xFFFFFFFF.
Definition shr (n x : N) : N := N.shiftr x n.
Definition rotr (n x : N) : N :=
  N.lor (N.shiftr x n) (mask32 (N.shiftl x (32 - n))).

Definition xor3 (x y z : N) : N := N.lxor (N.lxor x y) z.

Definition ch (x y z : N) : N := N.lxor (N.land x y) (N.land (not32 x) z).
Definition maj (x y z : N) : N :=
  xor3 (N.land x y) (N.land x z) (N.land y z).
Definition big_sigma0 (x : N) : N := xor3 (rotr 2 x) (rotr 13 x) (rotr 22 x).
Definition big_sigma1 (x : N) : N := xor3 (rotr 6 x) (rotr 11 x) (rotr 25 x).
Definition small_sigma0 (x : N) : N := xor3 (rotr 7 x) (rotr 18 x) (shr 3 x).
Definition small_sigma1 (x : N) : N := xor3 (rotr 17 x) (rotr 19 x) (shr 10 x).

(** The constants are the leading 32 bits of the fractional parts of the
    square roots (initial hash value) and cube roots (round constants) of
    the first primes. *)
Definition primes64 : list N :=
  [2; 3; 5; 7; 11; 13; 17; 19; 23; 29; 31; 37; 41; 43; 47; 53;
   59; 61; 67; 71; 73; 79; 83; 89; 97; 101; 103; 107; 109; 113; 127; 131;
   137; 139; 149; 151; 157; 163; 167; 173; 179; 181; 191; 193; 197; 199;
   211; 223; 227; 229; 233; 239; 241; 251; 257; 263; 269; 271; 277; 281;
   283; 293; 307; 311].

(** Integer cube root, one bit at a time from bit [bits - 1] down. *)
Fixpoint cube_root_bits (bits : nat) (n acc : N) : N :=
  match bits with
  | O => acc
  | S b =>
      let cand := N.lor acc (N.shiftl 1 (N.of_nat b)) in
      cube_root_bits b n (if cand * cand * cand <=? n then cand else acc)
  end.

Definition frac_sqrt32 (p : N) : N := mask32 (N.sqrt (N.shiftl p 64)).
Definition frac_cbrt32 (p : N) : N :=
  mask32 (cube_root_bits 36 (N.shiftl p 96) 0).

Definition initial_hash : list N :=
  Eval vm_compute in map frac_sqrt32 (firstn 8 primes64).
Definition round_constants : list N :=
  Eval vm_compute in map frac_cbrt32 primes64.

(** The [width] bytes of [x], most significant first. *)
Definition be_bytes (width : nat) (x : N) : bytes :=
  map (fun i => N.land (N.shiftr x (8 * N.of_nat i)) 0xFF) (rev (seq 0 width)).

(** Padding: a one bit, zeros up to 56 modulo 64, the bit length on 64 bits. *)
Definition pad (msg : bytes) : bytes :=
  let len := N.of_nat (length msg) in
  let zeros := N.to_nat ((119 - len mod 64) mod 64) in
  msg ++ [0x80] ++ repeat 0 zeros ++ be_bytes 8 (N.land (8 * len) 0xFFFFFFFFFFFFFFFF).

Fixpoint words_of_bytes (bs : bytes) : list N :=
  match bs with
  | b0 :: b1 :: b2 :: b3 :: rest =>
      N.lor (N.lor (N.shiftl b0 24) (N.shiftl b1 16)) (N.lor (N.shiftl b2 8) b3)
      :: words_of_bytes rest
  | _ => []
  end.

(** Message schedule: [win] holds the sixteen most recent words, oldest first. *)
Fixpoint expand (n : nat) (win : list N) : list N :=
  match n with
  | O => []
  | S n' =>
      let w := add32 (add32 (add32 (small_sigma1 (nth 14 win 0)) (nth 9 win 0))
                            (small_sigma0 (nth 1 win 0)))
                     (nth 0 win 0) in
      w :: expand n' (tail win ++ [w])
  end.

Definition schedule (block : list N) : list N := block ++ expand 48 block.

Record regs := Regs { ra : N; rb : N; rc : N; rd : N; re : N; rf : N; rg : N; rh : N }.

Definition round (s : regs) (kw : N * N) : regs :=
  let t1 := add32 (add32 (add32 (add32 (rh s) (big_sigma1 (re s)))
                                (ch (re s) (rf s) (rg s))) (fst kw)) (snd kw) in
  let t2 := add32 (big_sigma0 (ra s)) (maj (ra s) (rb s) (rc s)) in
  Regs (add32 t1 t2) (ra s) (rb s) (rc s) (add32 (rd s) t1) (re s) (rf s) (rg s).

Definition regs_of (h : list N) : regs :=
  Regs (nth 0 h 0) (nth 1 h 0) (nth 2 h 0) (nth 3 h 0)
       (nth 4 h 0) (nth 5 h 0) (nth 6 h 0) (nth 7 h 0).
Definition list_of (s : regs) : list N :=
  [ra s; rb s; rc s; rd s; re s; rf s; rg s; rh s].

Definition compress (h : list N) (block : list N) : list N :=
  let s := fold_left round (combine round_constants (schedule block)) (regs_of h) in
  map (fun p => add32 (fst p) (snd p)) (combine h (list_of s)).

Fixpoint hash_blocks (n : nat) (ws : list N) (h : list N) : list N :=
  match n with
  | O => h
  | S n' => hash_blocks n' (skipn 16 ws) (compress h (firstn 16 ws))
  end.

(** [hashlib.sha256(msg).digest()] *)
Definition digest (msg : bytes) : bytes :=
  let ws := words_of_bytes (pad msg) in
  concat (map (be_bytes 4) (hash_blocks (length ws / 16) ws initial_hash)).

Definition hex_digit (d : N) : N := if d <? 10 then 48 + d else 87 + d.

(** [hashlib.sha256(msg).hexdigest()]: lower-case hexadecimal. *)
Definition hexdigest (msg : bytes) : str :=
  concat (map (fun b => [hex_digit (N.shiftr b 4); hex_digit (N.land b 0xF)])
              (digest msg)).
End SHA256.

(** ** Ordering of strings and of dict items

    Python orders [str] lexicographically by code point, and tuples
    lexicographically by component.  Both are total orders, which is what
    makes sorting canonical. *)

Class TotalCompare {A : Type} (cmp : A -> A -> comparison) : Prop := {
  cmp_eq : forall a b, cmp a b = Eq <-> a = b;
  cmp_antisym : forall a b, cmp b a = CompOpp (cmp a b);
  cmp_trans : forall a b c, cmp a b = Lt -> cmp b c = Lt -> cmp a c = Lt
}.

Fixpoint list_compare {A : Type} (cmp : A -> A -> comparison) (s t : list A)
  : comparison :=
  match s, t with
  | [], [] => Eq
  | [], _ :: _ => Lt
  | _ :: _, [] => Gt
  | x :: s', y :: t' =>
      match cmp x y with
      | Eq => list_compare cmp s' t'
      | c => c
      end
  end.

Definition pair_compare {A B : Type} (cmpA : A -> A -> comparison)
    (cmpB : B -> B -> comparison) (p q : A * B) : comparison :=
  match cmpA (fst p) (fst q) with
  | Eq => cmpB (snd p) (snd q)
  | c => c
  end.

Definition lt_of {A : Type} (cmp : A -> A -> comparison) (a b : A) : bool :=
  match cmp a b with Lt => true | _ => false end.

Definition str_compare : str -> str -> comparison := list_compare N.compare.

(** [s < t] on [str]. *)
Definition str_lt : str -> str -> bool := lt_of str_compare.

(** [p < q] on [(str, str)] tuples. *)
Definition item_compare : str * str -> str * str -> comparison :=
  pair_compare str_compare str_compare.
Definition item_lt : str * str -> str * str -> bool := lt_of item_compare.

(** ** sorted()

    [sorted] is stable; on a total order every stable sort returns the same
    list, so insertion from the right stands for it. *)

Section Sorted.
Context {A : Type} (lt : A -> A -> bool).

Fixpoint insert (x : A) (l : list A) : list A :=
  match l with
  | [] => [x]
  | y :: l' => if lt y x then y :: insert x l' else x :: l
  end.

Definition sorted (l : list A) : list A := fold_right insert [] l.
End Sorted.

(** ** json.dumps(metadata, sort_keys=True)

    The defaults apply: [ensure_ascii=True], separators [", "] and [": "],
    no indentation. *)

Definition dict (K V : Type) := list (K * V).

Module JSON.
Local Open Scope N_scope.

Definition quote : N := 34.
Definition backslash : N := 92.

(** ['\\u{0:04x}'.format(n)] for [n < 0x10000]. *)
Definition u_escape (n : N) : str :=
  [backslash; 117]
    ++ map (fun i => SHA256.hex_digit (N.land (N.shiftr n (4 * i)) 0xF)) [3; 2; 1; 0].

(** One character under [ESCAPE_ASCII]: printable ASCII other than the
    quote and the backslash is kept, the rest is escaped. *)
Definition escape_char (c : N) : str :=
  if c =? quote then [backslash; quote]
  else if c =? backslash then [backslash; backslash]
  else if c =? 8 then [backslash; 98]
  else if c =? 12 then [backslash; 102]
  else if c =? 10 then [backslash; 110]
  else if c =? 13 then [backslash; 114]
  else if c =? 9 then [backslash; 116]
  else if (32 <=? c) && (c <=? 126) then [c]
  else if c <? 0x10000 then u_escape c
  else
    let v := c - 0x10000 in
    u_escape (N.lor 0xD800 (N.land (N.shiftr v 10) 0x3FF))
      ++ u_escape (N.lor 0xDC00 (N.land v 0x3FF)).

(** [encode_basestring_ascii] *)
Definition encode_str (s : str) : str :=
  [quote] ++ concat (map escape_char s) ++ [quote].

Definition encode_item (kv : str * str) : str :=
  encode_str (fst kv) ++ py ": " ++ encode_str (snd kv).

(** [json.dumps(d, sort_keys=True)]: the items go through [sorted]. *)
Definition dumps_sorted (d : dict str str) : str :=
  match sorted item_lt d with
  | [] => py "{}"
  | items => py "{" ++ join (py ", ") (map encode_item items) ++ py "}"
  end.
End JSON.

(** ** str.encode(): UTF-8, strict *)

Inductive exn :=
| ZeroDivisionError
| UnicodeEncodeError
| DanglingReference.  (* model only: a reference outside the heap *)

Inductive result (A : Type) :=
| Ok (a : A)
| Raise (e : exn).
Arguments Ok {A} a.
Arguments Raise {A} e.

Module UTF8.
Local Open Scope N_scope.

Definition cont (x : N) : N := N.lor 0x80 (N.land x 0x3F).

Definition encode_char (c : N) : option bytes :=
  if c <? 0x80 then Some [c]
  else if c <? 0x800 then Some [N.lor 0xC0 (N.shiftr c 6); cont c]
  else if (0xD800 <=? c) && (c <=? 0xDFFF) then None
  else if c <? 0x10000 then
    Some [N.lor 0xE0 (N.shiftr c 12); cont (N.shiftr c 6); cont c]
  else
    Some [N.lor 0xF0 (N.shiftr c 18); cont (N.shiftr c 12);
          cont (N.shiftr c 6); cont c].

Fixpoint encode (s : str) : result bytes :=
  match s with
  | [] => Ok []
  | c :: s' =>
      match encode_char c, encode s' with
      | Some b, Ok bs => Ok (b ++ bs)
      | None, _ => Raise UnicodeEncodeError
      | _, Raise e => Raise e
      end
  end.
End UTF8.

(** ** The NFT signature

    [hashlib.sha256(json.dumps(metadata, sort_keys=True).encode()).hexdigest()],
    the expression of [NFT.__post_init__] and of [cross_verify_nfts]. *)

Definition compute_signature (metadata : dict str str) : result str :=
  match UTF8.encode (JSON.dumps_sorted metadata) with
  | Ok b => Ok (SHA256.hexdigest b)
  | Raise e => Raise e
  end.

(** The serialisation is ASCII, so its encoding is itself, byte for code
    point; [compute_signature_total] below shows that [compute_signature]
    always returns this value. *)
Definition signature_of (metadata : dict str str) : str :=
  SHA256.hexdigest (JSON.dumps_sorted metadata).
Arguments signature_of : simpl never.

(** ** Program state and effects *)

(** [print] lines, one constructor per format string of the program. *)
Inductive Line :=
| CycleBanner (cycle : Z)                    (* "\n=== Cycle {cycle} ===" *)
| MismatchedSignature (token_id : str)       (* "[ERROR] NFT {token_id} has mismatched signature." *)
| DuplicateSignature (token_id : str)        (* "[ERROR] Duplicate signature detected for NFT {token_id}." *)
| FatalVerificationFailed                    (* "[fatal] NFT verification failed. Aborting loop to maintain integrity." *)
| SensorReadings (readings : dict str float) (* "[update] Sensor readings: {readings}" *)
| AverageReading (avg : float) (status : str) (* "[think] Average reading: {avg:.2f}, status: {status}" *)
| AllSystemsNominal (value : float)          (* "[act] All systems nominal. Avg value {value:.2f} within expected range." *)
| OutsideNormalRange (value : float)         (* "[act] Warning! Sensor average {value:.2f} is outside the normal range." *)
| Heartbeat (timestamp : str) (cycle : Z).   (* "[breath] Heartbeat at {timestamp}, cycle {cycle}" *)

Inductive Event :=
| Print (line : Line)
| Sleep (seconds : float).

Record NFT := mkNFT {
  token_id : str;
  metadata : dict str str;
  signature : str
}.

(** A reference to an [NFT] instance: its index in the heap. *)
Abbreviation ref := nat.

Record World := mkWorld {
  heap : list NFT;          (* the NFT instances allocated so far *)
  trace : list Event;       (* what the program did, oldest first *)
  sensors : nat -> float;   (* values of round(random.uniform(lo, hi), 2), in draw order *)
  drawn : nat;              (* number of draws so far *)
  clock : nat -> str;       (* values of time.strftime, in call order *)
  ticks : nat               (* number of clock readings so far *)
}.

Definition M (A : Type) : Type := World -> result A * World.

Definition ret {A : Type} (a : A) : M A := fun w => (Ok a, w).

Definition bind {A B : Type} (m : M A) (k : A -> M B) : M B :=
  fun w =>
    match m w with
    | (Ok a, w') => k a w'
    | (Raise e, w') => (Raise e, w')
    end.

Definition lift {A : Type} (r : result A) : M A := fun w => (r, w).

Notation "x <- m ;; k" := (bind m (fun x => k))
  (at level 20, m at level 99, k at level 200, only parsing).
Notation "' p <- m ;; k" := (bind m (fun x => match x with p => k end))
  (at level 20, p pattern, m at level 99, k at level 200, only parsing).
Notation "m ;; k" := (bind m (fun _ => k))
  (at level 100, k at level 200, only parsing, right associativity).

Definition emit (e : Event) (w : World) : World :=
  mkWorld (heap w) (trace w ++ [e]) (sensors w) (drawn w) (clock w) (ticks w).

Definition with_heap (h : list NFT) (w : World) : World :=
  mkWorld h (trace w) (sensors w) (drawn w) (clock w) (ticks w).

Definition print (l : Line) : M unit := fun w => (Ok tt, emit (Print l) w).

(** [time.sleep(seconds)] *)
Definition sleep (seconds : float) : M unit := fun w => (Ok tt, emit (Sleep seconds) w).

(** [round(random.uniform(lo, hi), 2)]: the next value of the random source. *)
Definition uniform_round2 (lo hi : float) : M float :=
  fun w => (Ok (sensors w (drawn w)),
            mkWorld (heap w) (trace w) (sensors w) (S (drawn w)) (clock w) (ticks w)).

(** [time.strftime("%Y-%m-%d %H:%M:%S")]: the next reading of the clock. *)
Definition strftime : M str :=
  fun w => (Ok (clock w (ticks w)),
            mkWorld (heap w) (trace w) (sensors w) (drawn w) (clock w) (S (ticks w))).

(** Attribute access through a reference. *)
Definition deref (r : ref) : M NFT :=
  fun w => match heap w !! r with
           | Some o => (Ok o, w)
           | None => (Raise DanglingReference, w)
           end.

Definition alloc (o : NFT) : M ref :=
  fun w => (Ok (length (heap w)), with_heap (heap w ++ [o]) w).

(** ** class NFT *)

(** [NFT(token_id=..., metadata=...)]: the generated [__init__] stores the
    two fields and [__post_init__] computes the signature. *)
Definition NFT_new (token_id : str) (metadata : dict str str) : M ref :=
  signature <- lift (compute_signature metadata) ;;
  alloc (mkNFT token_id metadata signature).

(** ** cross_verify_nfts *)

Fixpoint verify_loop (nfts : list ref) (seen_signatures : gset str) : M bool :=
  match nfts with
  | [] => ret true
  | r :: rest =>
      nft <- deref r ;;
      expected_sig <- lift (compute_signature (metadata nft)) ;;
      if negb (bool_decide (expected_sig = signature nft)) then
        print (MismatchedSignature (token_id nft)) ;;
        ret false
      else if bool_decide (expected_sig ∈ seen_signatures) then
        print (DuplicateSignature (token_id nft)) ;;
        ret false
      else
        verify_loop rest (seen_signatures ∪ {[expected_sig]})
  end.

Definition cross_verify_nfts (nfts : list ref) : M bool := verify_loop nfts ∅.

(** ** update *)

Definition update : M (dict str float) :=
  temperature <- uniform_round2 20.0 30.0 ;;
  humidity <- uniform_round2 30.0 70.0 ;;
  pressure <- uniform_round2 990.0 1020.0 ;;
  let readings :=
    [(py "temperature", temperature); (py "humidity", humidity);
     (py "pressure", pressure)] in
  print (SensorReadings readings) ;;
  ret readings.

(** ** think *)

(** The result of [sum]: the [int] start value [0] until a [float] is added. *)
Inductive number :=
| Int (z : Z)
| Float (f : float).

(** [float(n)] for an [int]: the nearest binary64 value. *)
Definition float_of_int (n : Z) : float :=
  SF2Prim (SpecFloat.binary_normalize prec emax n 0 false).

Definition to_float (x : number) : float :=
  match x with
  | Int z => float_of_int z
  | Float f => f
  end.

(** [sum(values)]: the items are added left to right, starting from the
    [int] [0].  (CPython 3.12 and later also carry a compensation term for
    the rounding errors of a float sum; it is zero whenever the partial sums
    are exact.) *)
Definition py_sum (values : list float) : number :=
  fold_left (fun acc v => Float (to_float acc + v)%float) values (Int 0).

(** [x / n] with [n] an [int]: true division. *)
Definition truediv (x : number) (n : Z) : result float :=
  if (n =? 0)%Z then Raise ZeroDivisionError
  else Ok (to_float x / float_of_int n)%float.

Definition think (readings : dict str float) : M (str * float) :=
  avg <- lift (truediv (py_sum (map snd readings)) (Z.of_nat (length readings))) ;;
  let status :=
    if ((24.0 <=? avg) && (avg <=? 26.0))%float then py "normal" else py "anomaly" in
  print (AverageReading avg status) ;;
  ret (status, avg).

(** ** act *)

Definition act (status : str) (value : float) : M unit :=
  if bool_decide (status = py "normal") then print (AllSystemsNominal value)
  else print (OutsideNormalRange value).

(** ** breath *)

Definition breath (cycle : Z) : M unit :=
  timestamp <- strftime ;;
  print (Heartbeat timestamp cycle).

(** ** main *)

(** [range(start, stop)] *)
Definition range (start stop : Z) : list Z :=
  map (fun i => (start + Z.of_nat i)%Z) (seq 0 (Z.to_nat (stop - start))).

(** The [for cycle in range(...)] loop of [main].  The verifier is the
    module-level name [cross_verify_nfts], looked up at each call; it is a
    parameter here so that the loop can also be run against a stand-in. *)
Fixpoint main_loop (verifier : list ref -> M bool) (nfts : list ref)
    (cycles : list Z) : M unit :=
  match cycles with
  | [] => ret tt
  | cycle :: rest =>
      print (CycleBanner cycle) ;;
      verified <- verifier nfts ;;
      if negb verified then
        print FatalVerificationFailed   (* break *)
      else
        readings <- update ;;
        ' (status, value) <- think readings ;;
        act status value ;;
        breath cycle ;;
        sleep 0.5 ;;
        main_loop verifier nfts rest
  end.

Definition MAX_CYCLES : Z := 5.

Definition metadata1 : dict str str :=
  [(py "owner", py "alice"); (py "asset", py "artwork"); (py "serial", py "A123")].
Definition metadata2 : dict str str :=
  [(py "owner", py "bob"); (py "asset", py "watch"); (py "serial", py "W456")].
Definition metadata3 : dict str str :=
  [(py "owner", py "carol"); (py "asset", py "car"); (py "serial", py "C789")].

(** The list literal [nfts] of [main]. *)
Definition mock_nfts : M (list ref) :=
  nft1 <- NFT_new (py "nft1") metadata1 ;;
  nft2 <- NFT_new (py "nft2") metadata2 ;;
  nft3 <- NFT_new (py "nft3") metadata3 ;;
  ret [nft1; nft2; nft3].

Definition main : M unit :=
  nfts <- mock_nfts ;;
  main_loop cross_verify_nfts nfts (range 1 (MAX_CYCLES + 1)).

(** * Vocabulary of the statements *)

(** A string of ASCII characters. *)
Definition ascii (s : str) : Prop := Forall (fun c => (c < 128)%N) s.

(** The record invariant: the stored signature is the digest of the
    canonical serialisation of the metadata. *)
Definition self_consistent (o : NFT) : Prop :=
  compute_signature (metadata o) = Ok (signature o).

(** The objects behind a list of references, when none dangles. *)
Fixpoint objects (h : list NFT) (refs : list ref) : option (list NFT) :=
  match refs with
  | [] => Some []
  | r :: refs' =>
      match h !! r, objects h refs' with
      | Some o, Some os => Some (o :: os)
      | _, _ => None
      end
  end.

(** The three records of [main], as [mock_nfts] builds them. *)
Definition object1 : NFT := mkNFT (py "nft1") metadata1 (signature_of metadata1).
Definition object2 : NFT := mkNFT (py "nft2") metadata2 (signature_of metadata2).
Definition object3 : NFT := mkNFT (py "nft3") metadata3 (signature_of metadata3).
Definition mock_objects : list NFT := [object1; object2; object3].

(** The mean as the specification words it: the sum of the values divided
    by their number, in binary64 arithmetic. *)
Definition arithmetic_mean (values : list float) : float :=
  (fold_left PrimFloat.add values 0 / float_of_int (Z.of_nat (length values)))%float.

(** [24.0 <= x <= 26.0] *)
Definition in_band (x : float) : Prop :=
  (24.0 <=? x)%float = true /\ (x <=? 26.0)%float = true.

(** The four stages, each recognised by the line that only it prints, once
    per call. *)
Inductive Stage := StUpdate | StThink | StAct | StBreath.

Definition stage_of (e : Event) : option Stage :=
  match e with
  | Print (SensorReadings _) => Some StUpdate
  | Print (AverageReading _ _) => Some StThink
  | Print (AllSystemsNominal _) | Print (OutsideNormalRange _) => Some StAct
  | Print (Heartbeat _ _) => Some StBreath
  | _ => None
  end.

Definition stages (evs : list Event) : list Stage := omap stage_of evs.

Definition cycle_stages : list Stage := [StUpdate; StThink; StAct; StBreath].

(** The cycles begun: the numbers of the banners printed. *)
Definition banner_of (e : Event) : option Z :=
  match e with
  | Print (CycleBanner c) => Some c
  | _ => None
  end.

Definition cycles_begun (evs : list Event) : list Z := omap banner_of evs.

(** The cycle under way: the number of the last banner printed. *)
Definition current_cycle (evs : list Event) : Z :=
  fold_left (fun c e => default c (banner_of e)) evs 0%Z.

(** Stand-ins for the verifier: one that always returns [True], one that
    returns [False] during cycle [k] and [True] otherwise.  Neither prints. *)
Definition always_succeeds : list ref -> M bool := fun _ => ret true.

Definition fails_on_cycle (k : Z) : list ref -> M bool :=
  fun _ w => (Ok (negb (current_cycle (trace w) =? k)%Z), w).

(** What a cycle does once verification has passed. *)
Definition stages_body (cycle : Z) : M unit :=
  readings <- update ;;
  ' (status, value) <- think readings ;;
  act status value ;;
  breath cycle ;;
  sleep 0.5.

(** The stages run by [n] full cycles. *)
Definition full_cycles (n : nat) : list Stage := mjoin (replicate n cycle_stages).

(** ** Sample inputs *)

(** A literal with single quotes standing for double quotes. *)
Definition single_quoted (s : String.string) : str :=
  map (fun c => if (c =? 39)%N then JSON.quote else c) (py s).
Arguments single_quoted s%_string.

(** A world holding the given records and nothing printed yet. *)
Definition world_of (h : list NFT) : World :=
  mkWorld h [] (fun _ => 25.0%float) 0 (fun _ => py "2025-01-01 12:00:00") 0.

(** [nft2] with its stored signature overwritten. *)
Definition tampered2 : NFT := mkNFT (py "nft2") metadata2 (py "00ff").

(** A second record with the metadata of [nft1]. *)
Definition clone1 : NFT := mkNFT (py "nft4") metadata1 (signature_of metadata1).

(** A record with the metadata of [nft1] and a made-up signature. *)
Definition forged1 : NFT := mkNFT (py "nft9") metadata1 (py "beef").

Definition tampered_world : World := world_of [object1; tampered2; object3].
Definition cloned_world : World := world_of [object1; object2; clone1; object3].
Definition forged_world : World := world_of [object1; object2; object3; forged1].

(** The items of [metadata1] in another order. *)
Definition metadata1_reordered : dict str str :=
  [(py "asset", py "artwork"); (py "serial", py "A123"); (py "owner", py "alice")].

(** ** Further vocabulary *)

(** What the verifier accepts: every record is self-consistent and the
    signatures are pairwise distinct. *)
Definition store_valid (os : list NFT) : Prop :=
  Forall self_consistent os /\ NoDup (map signature os).

(** [e] is one of the two error lines of the verifier, naming [o]. *)
Definition names_record (e : Event) (o : NFT) : Prop :=
  e = Print (MismatchedSignature (token_id o))
  \/ e = Print (DuplicateSignature (token_id o)).

(** The records of [main] under one shared identifier. *)
Definition same_id_objects : list NFT :=
  map (fun o => mkNFT (py "nft") (metadata o) (signature o)) mock_objects.

(** A second record with the items of [metadata1] in another order. *)
Definition reordered_clone1 : NFT :=
  mkNFT (py "nft5") metadata1_reordered (signature_of metadata1_reordered).

Definition reordered_world : World :=
  world_of [object1; object2; reordered_clone1; object3].

(** A digit of lower-case hexadecimal. *)
Definition is_lower_hex (c : N) : bool :=
  ((48 <=? c) && (c <=? 57) || (97 <=? c) && (c <=? 102))%N.

(** The shape of a SHA-256 [hexdigest]: 64 lower-case hexadecimal digits. *)
Definition is_hex_signature (s : str) : bool :=
  (length s =? 64)%nat && forallb is_lower_hex s.

(** [nft1] with its signature stored in upper case. *)
Definition upper_case (c : N) : N :=
  if ((97 <=? c) && (c <=? 122))%N then (c - 32)%N else c.

Definition shouting1 : NFT :=
  mkNFT (py "nft1") metadata1 (map upper_case (signature_of metadata1)).

Definition shouting_world : World := world_of [object2; shouting1; object3].

(** A surrogate code point, which UTF-8 cannot encode. *)
Definition is_surrogate (c : N) : bool := ((0xD800 <=? c) && (c <=? 0xDFFF))%N.

(** The UTF-16 surrogate pair of a code point above the basic plane. *)
Definition surrogate_pair (c : N) : str :=
  let v := (c - 0x10000)%N in
  [N.lor 0xD800 (N.land (N.shiftr v 10) 0x3FF); N.lor 0xDC00 (N.land v 0x3FF)].

(** [s] with every code point above the basic plane replaced by its
    surrogate pair: a different string whenever [s] has such a code point. *)
Definition split_astral (s : str) : str :=
  concat (map (fun c => if (0x10000 <=? c)%N then surrogate_pair c else [c]) s).

Definition split_values (md : dict str str) : dict str str :=
  map (fun kv => (kv.1, split_astral kv.2)) md.

(** [p] on every number of [k] bits that starts with the bits of [acc]. *)
Fixpoint forall_bits (k : nat) (acc : N) (p : N -> bool) : bool :=
  match k with
  | O => p acc
  | S k' => forall_bits k' (2 * acc)%N p && forall_bits k' (2 * acc + 1)%N p
  end.

(** A metadata mapping with an emoji in a value. *)
Definition emoji_metadata : dict str str :=
  [(py "owner", py "alice"); (py "mood", [0x1F600%N])].

(** What the four stages and the pause of cycle [cycle] add to the trace
    when they start in world [w]: the three readings are the next three
    values of the random source, the mean printed by think is the value
    printed by act, and act's line follows think's label. *)
Definition cycle_events (cycle : Z) (w : World) : list Event :=
  let readings :=
    [(py "temperature", sensors w (drawn w));
     (py "humidity", sensors w (S (drawn w)));
     (py "pressure", sensors w (S (S (drawn w))))] in
  let avg := arithmetic_mean (map snd readings) in
  let nominal := ((24.0 <=? avg) && (avg <=? 26.0))%float in
  [Print (SensorReadings readings);
   Print (AverageReading avg (if nominal then py "normal" else py "anomaly"));
   Print (if nominal then AllSystemsNominal avg else OutsideNormalRange avg);
   Print (Heartbeat (clock w (ticks w)) cycle);
   Sleep 0.5].

(** The world after those stages. *)
Definition after_cycle (cycle : Z) (w : World) : World :=
  mkWorld (heap w) (trace w ++ cycle_events cycle w) (sensors w)
          (drawn w + 3) (clock w) (ticks w + 1).

(** The pauses taken: the arguments of the [time.sleep] calls. *)
Definition pause_of (e : Event) : option float :=
  match e with
  | Sleep seconds => Some seconds
  | _ => None
  end.

Definition pauses (evs : list Event) : list float := omap pause_of evs.

(** A list display of [NFT(...)] calls, like the one of [main], for any
    identifiers and metadata: the records are built left to right. *)
Fixpoint build (specs : list (str * dict str str)) : M (list ref) :=
  match specs with
  | [] => ret []
  | spec :: rest =>
      nft <- NFT_new spec.1 spec.2 ;;
      nfts <- build rest ;;
      ret (nft :: nfts)
  end.

(** The record that [NFT] builds from an identifier and metadata. *)
Definition new_object (spec : str * dict str str) : NFT :=
  mkNFT spec.1 spec.2 (signature_of spec.2).

(** A reading with a channel that is not a number. *)
Definition faulty_reading : dict str float :=
  [(py "temperature", 25.0%float); (py "humidity", PrimFloat.nan);
   (py "pressure", 25.0%float)].

(** A Unicode scalar value: a code point that is not a surrogate.  Text
    that any encoder accepts is made of these. *)
Definition scalar (c : N) : bool := (c <? 0x110000)%N && negb (is_surrogate c).

Definition well_formed (s : str) : bool := forallb scalar s.

Definition well_formed_items (md : dict str str) : bool :=
  forallb (fun kv => well_formed kv.1 && well_formed kv.2) md.

(** Reading one escaped character back, the inverse of [JSON.escape_char]
    on scalar values. *)
Definition hex_value (d : N) : option N :=
  if ((48 <=? d) && (d <=? 57))%N then Some (d - 48)%N
  else if ((97 <=? d) && (d <=? 102))%N then Some (d - 87)%N
  else None.

Definition parse_hex4 (s : str) : option (N * str) :=
  match s with
  | a :: b :: c :: d :: rest =>
      match hex_value a, hex_value b, hex_value c, hex_value d with
      | Some a, Some b, Some c, Some d =>
          Some ((a * 4096 + b * 256 + c * 16 + d)%N, rest)
      | _, _, _, _ => None
      end
  | _ => None
  end.

Definition short_escape (x : N) : option N :=
  if (x =? 34)%N then Some 34%N
  else if (x =? 92)%N then Some 92%N
  else if (x =? 98)%N then Some 8%N
  else if (x =? 102)%N then Some 12%N
  else if (x =? 110)%N then Some 10%N
  else if (x =? 114)%N then Some 13%N
  else if (x =? 116)%N then Some 9%N
  else None.

Definition unescape (s : str) : option (N * str) :=
  match s with
  | [] => None
  | c :: rest =>
      if (c =? 92)%N then
        match rest with
        | [] => None
        | x :: rest' =>
            if (x =? 117)%N then
              match parse_hex4 rest' with
              | Some (n, rest'') =>
                  if ((0xD800 <=? n) && (n <=? 0xDBFF))%N then
                    match rest'' with
                    | b :: u :: rest3 =>
                        if ((b =? 92) && (u =? 117))%N then
                          match parse_hex4 rest3 with
                          | Some (m, rest4) =>
                              Some ((0x10000 + (n - 0xD800) * 1024 + (m - 0xDC00))%N,
                                    rest4)
                          | None => None
                          end
                        else None
                    | _ => None
                    end
                  else Some (n, rest'')
              | None => None
              end
            else option_map (fun c => (c, rest')) (short_escape x)
        end
      else Some (c, rest)
  end.

(** An event of a run without incident: anything but the two error lines of
    the verifier and the fatal line of [main]. *)
Definition routine (e : Event) : bool :=
  match e with
  | Print (MismatchedSignature _) | Print (DuplicateSignature _)
  | Print FatalVerificationFailed => false
  | _ => true
  end.

(** * Properties *)

(** ** Test vectors for the library functions *)

Example sha256_round_constants_ends :
  nth 0 SHA256.round_constants 0%N = 0x428a2f98%N /\
  nth 63 SHA256.round_constants 0%N = 0xc67178f2%N /\
  SHA256.initial_hash =
    [0x6a09e667; 0xbb67ae85; 0x3c6ef372; 0xa54ff53a;
     0x510e527f; 0x9b05688c; 0x1f83d9ab; 0x5be0cd19]%N.
Proof. repeat split. Qed.

Example sha256_empty :
  SHA256.hexdigest [] =
  py "e3b0c44298fc1c149afbf4c8996fb92427ae41e4649b934ca495991b7852b855".
Proof. vm_compute. reflexivity. Qed.

Example sha256_abc :
  SHA256.hexdigest (py "abc") =
  py "ba7816bf8f01cfea414140de5dae2223b00361a396177a9cb410ff61f20015ad".
Proof. vm_compute. reflexivity. Qed.

Example sha256_two_blocks :
  SHA256.hexdigest (py "abcdbcdecdefdefgefghfghighijhijkijkljklmklmnlmnomnopnopq") =
  py "248d6a61d20638b8e5c026930c3e6039a33ce45964ff2167f6ecedd419db06c1".
Proof. vm_compute. reflexivity. Qed.


Example dumps_sorted_alice :
  JSON.dumps_sorted metadata1
  = single_quoted "{'asset': 'artwork', 'owner': 'alice', 'serial': 'A123'}".
Proof. vm_compute. reflexivity. Qed.

Example dumps_sorted_escapes :
  JSON.dumps_sorted
    [(py "a" ++ [127; 34; 92; 10; 233; 0x1F600; 1]%N, [0xD800%N])]
  = single_quoted "{'a\u007f\'\\\n\u00e9\ud83d\ude00\u0001': '\ud800'}".
Proof. vm_compute. reflexivity. Qed.

Example signature_alice :
  compute_signature metadata1
  = Ok (py "d0a76e9bc65451f3661d36b980b0f0935a885a3e1d71444e334d107f693c0694").
Proof. vm_compute. reflexivity. Qed.

Example signature_bob :
  compute_signature metadata2
  = Ok (py "45d83e2998618d3408513caa189a02fb43edcd9ff3976e83b7ec8cdad0afecee").
Proof. vm_compute. reflexivity. Qed.

Example signature_carol :
  compute_signature metadata3
  = Ok (py "2e3f2851d3f5cecf926aac1cf1974272011278e54d041c4308382757a993b7b2").
Proof. vm_compute. reflexivity. Qed.

(** ** The orders are total *)

#[local] Instance N_compare_total : TotalCompare N.compare.
Proof.
  split.
  - apply N.compare_eq_iff.
  - apply N.compare_antisym.
  - intros a b c. rewrite !N.compare_lt_iff. lia.
Qed.

#[local] Instance list_compare_total {A : Type} (cmp : A -> A -> comparison)
  `{!TotalCompare cmp} : TotalCompare (list_compare cmp).
Proof.
  split.
  - induction a as [|x s IH]; intros [|y t]; simpl; try (split; congruence).
    destruct (cmp x y) eqn:E.
    + apply cmp_eq in E as ->. rewrite IH. split; congruence.
    + split; [discriminate|]. intros [= -> _].
      assert (cmp y y = Eq) by (by apply cmp_eq). congruence.
    + split; [discriminate|]. intros [= -> _].
      assert (cmp y y = Eq) by (by apply cmp_eq). congruence.
  - induction a as [|x s IH]; intros [|y t]; simpl; try reflexivity.
    rewrite (cmp_antisym x y). destruct (cmp x y); simpl; auto.
  - induction a as [|x s IH]; intros [|y t] [|z u]; simpl; try congruence.
    destruct (cmp x y) eqn:E1; try discriminate.
    + apply cmp_eq in E1 as ->. destruct (cmp y z); eauto.
    + destruct (cmp y z) eqn:E2; try discriminate.
      * apply cmp_eq in E2 as <-. by rewrite E1.
      * by rewrite (cmp_trans _ _ _ E1 E2).
Qed.

#[local] Instance pair_compare_total {A B : Type} (cmpA : A -> A -> comparison)
  (cmpB : B -> B -> comparison) `{!TotalCompare cmpA, !TotalCompare cmpB} :
  TotalCompare (pair_compare cmpA cmpB).
Proof.
  unfold pair_compare. split.
  - intros [a1 b1] [a2 b2]; simpl. destruct (cmpA a1 a2) eqn:E.
    + apply cmp_eq in E as ->. rewrite cmp_eq. split; congruence.
    + split; [discriminate|]. intros [= -> _].
      assert (cmpA a2 a2 = Eq) by (by apply cmp_eq). congruence.
    + split; [discriminate|]. intros [= -> _].
      assert (cmpA a2 a2 = Eq) by (by apply cmp_eq). congruence.
  - intros [a1 b1] [a2 b2]; simpl. rewrite (cmp_antisym a1 a2).
    destruct (cmpA a1 a2); simpl; auto using cmp_antisym.
  - intros [a1 b1] [a2 b2] [a3 b3]; simpl.
    destruct (cmpA a1 a2) eqn:E1; try discriminate.
    + apply cmp_eq in E1 as ->. destruct (cmpA a2 a3); eauto using cmp_trans.
    + destruct (cmpA a2 a3) eqn:E2; try discriminate.
      * apply cmp_eq in E2 as <-. by rewrite E1.
      * by rewrite (cmp_trans _ _ _ E1 E2).
Qed.

Section LtOf.
Context {A : Type} (cmp : A -> A -> comparison) `{!TotalCompare cmp}.

Lemma lt_of_asym a b : lt_of cmp a b = true -> lt_of cmp b a = false.
Proof.
  unfold lt_of. rewrite (cmp_antisym a b). by destruct (cmp a b).
Qed.

Lemma lt_of_connex a b :
  lt_of cmp a b = false -> lt_of cmp b a = false -> a = b.
Proof.
  unfold lt_of. rewrite (cmp_antisym a b).
  destruct (cmp a b) eqn:E; simpl; try discriminate.
  intros _ _. by apply cmp_eq.
Qed.

Lemma lt_of_le_lt y a b :
  lt_of cmp y a = true -> lt_of cmp y b = false -> lt_of cmp b a = true.
Proof.
  unfold lt_of. intros Hya Hyb.
  destruct (cmp y a) eqn:Eya; try discriminate.
  destruct (cmp y b) eqn:Eyb; try discriminate.
  - apply cmp_eq in Eyb as <-. by rewrite Eya.
  - assert (cmp b y = Lt) as Eby by (rewrite (cmp_antisym y b), Eyb; done).
    by rewrite (cmp_trans _ _ _ Eby Eya).
Qed.

(** Two insertions commute, whatever the list. *)
Lemma insert_comm a b l :
  insert (lt_of cmp) a (insert (lt_of cmp) b l)
  = insert (lt_of cmp) b (insert (lt_of cmp) a l).
Proof.
  induction l as [|y l IH]; cbn [insert].
  - destruct (lt_of cmp b a) eqn:Eba, (lt_of cmp a b) eqn:Eab; try done.
    + apply lt_of_asym in Eba. congruence.
    + by rewrite (lt_of_connex _ _ Eab Eba).
  - destruct (lt_of cmp y b) eqn:Eyb, (lt_of cmp y a) eqn:Eya; cbn [insert];
      rewrite ?Eyb, ?Eya.
    + by rewrite IH.
    + rewrite (lt_of_le_lt _ _ _ Eyb Eya). cbn [insert]. by rewrite ?Eyb.
    + rewrite (lt_of_le_lt _ _ _ Eya Eyb). cbn [insert]. by rewrite ?Eya.
    + destruct (lt_of cmp b a) eqn:Eba, (lt_of cmp a b) eqn:Eab; cbn [insert];
        rewrite ?Eyb, ?Eya; try done.
      * apply lt_of_asym in Eba. congruence.
      * by rewrite (lt_of_connex _ _ Eab Eba).
Qed.

(** [sorted] depends on the elements only, not on their order. *)
Lemma sorted_Permutation l1 l2 :
  l1 ≡ₚ l2 -> sorted (lt_of cmp) l1 = sorted (lt_of cmp) l2.
Proof.
  induction 1 as [|x l1 l2 _ IH|x y l|l1 l2 l3 _ IH1 _ IH2]; simpl.
  - done.
  - by rewrite IH.
  - apply insert_comm.
  - congruence.
Qed.
End LtOf.

(** ** The serialisation is ASCII, and its signature is always computed *)

Ltac ascii_literal := repeat (constructor; [reflexivity|]); constructor.

Lemma ascii_app s t : ascii s -> ascii t -> ascii (s ++ t).
Proof. intros. by apply Forall_app. Qed.

Lemma hex_digit_ascii n : (SHA256.hex_digit (N.land n 0xF) < 128)%N.
Proof.
  assert (N.land n 0xF < 16)%N as Hlt.
  { change 0xF%N with (N.ones 4). rewrite N.land_ones. by apply N.mod_lt. }
  unfold SHA256.hex_digit.
  destruct (N.ltb_spec (N.land n 0xF) 10); lia.
Qed.

Lemma u_escape_ascii n : ascii (JSON.u_escape n).
Proof.
  unfold JSON.u_escape. apply ascii_app; [ascii_literal|].
  apply List.Forall_map, Forall_forall. intros i _.
  apply hex_digit_ascii.
Qed.

Lemma escape_char_ascii c : ascii (JSON.escape_char c).
Proof.
  unfold JSON.escape_char.
  repeat match goal with
         | |- ascii (if ?b then _ else _) => destruct b eqn:?
         end;
    try (ascii_literal; fail); auto using u_escape_ascii, ascii_app.
  constructor; [|constructor].
  match goal with
  | H : (_ && _) = true |- _ => apply andb_prop in H as [_ ?%N.leb_le]
  end.
  lia.
Qed.

Lemma encode_str_ascii s : ascii (JSON.encode_str s).
Proof.
  unfold JSON.encode_str. apply ascii_app; [ascii_literal|].
  apply ascii_app; [|ascii_literal].
  induction s; simpl; [constructor|]. auto using escape_char_ascii, ascii_app.
Qed.

Lemma join_ascii sep parts : ascii sep -> Forall ascii parts -> ascii (join sep parts).
Proof.
  intros Hsep. induction 1 as [|p parts Hp Hparts IH]; simpl; [constructor|].
  destruct parts; [done|]. auto using ascii_app.
Qed.

Lemma dumps_sorted_ascii d : ascii (JSON.dumps_sorted d).
Proof.
  unfold JSON.dumps_sorted. destruct (sorted item_lt d) as [|kv items] eqn:E.
  { ascii_literal. }
  apply ascii_app; [ascii_literal|]. apply ascii_app; [|ascii_literal].
  apply join_ascii; [ascii_literal|].
  apply List.Forall_map, Forall_forall. intros kv' _.
  unfold JSON.encode_item.
  apply ascii_app; [apply encode_str_ascii|].
  apply ascii_app; [ascii_literal|apply encode_str_ascii].
Qed.

Lemma encode_ascii s : ascii s -> UTF8.encode s = Ok s.
Proof.
  induction 1 as [|c s Hc _ IH]; simpl; [done|].
  unfold UTF8.encode_char. apply N.ltb_lt in Hc. by rewrite Hc, IH.
Qed.

(** [compute_signature] never raises. *)
Lemma compute_signature_total metadata :
  compute_signature metadata = Ok (signature_of metadata).
Proof.
  unfold compute_signature. by rewrite (encode_ascii _ (dumps_sorted_ascii metadata)).
Qed.

Lemma self_consistent_signature o :
  self_consistent o <-> signature o = signature_of (metadata o).
Proof.
  unfold self_consistent. rewrite compute_signature_total. split; congruence.
Qed.

Lemma objects_app h pre post os1 os2 :
  objects h pre = Some os1 ->
  objects h post = Some os2 ->
  objects h (pre ++ post) = Some (os1 ++ os2).
Proof.
  revert os1. induction pre as [|r pre IH]; intros os1; simpl.
  - by intros [= <-].
  - destruct (h !! r); [|done].
    destruct (objects h pre) eqn:E; [|done].
    intros [= <-] Hpost. by rewrite (IH _ eq_refl Hpost).
Qed.

Lemma objects_cons h r refs o os :
  h !! r = Some o -> objects h refs = Some os ->
  objects h (r :: refs) = Some (o :: os).
Proof. intros Hr Hrefs. simpl. by rewrite Hr, Hrefs. Qed.

(** ** The verifier loop, one record at a time *)

Lemma verify_loop_cons r rest seen w nft :
  heap w !! r = Some nft ->
  verify_loop (r :: rest) seen w =
    if negb (bool_decide (signature_of (metadata nft) = signature nft)) then
      (Ok false, emit (Print (MismatchedSignature (token_id nft))) w)
    else if bool_decide (signature_of (metadata nft) ∈ seen) then
      (Ok false, emit (Print (DuplicateSignature (token_id nft))) w)
    else verify_loop rest (seen ∪ {[signature_of (metadata nft)]}) w.
Proof.
  intros Hr. cbn [verify_loop]. unfold bind at 1, deref. rewrite Hr.
  unfold bind at 1, lift. rewrite compute_signature_total.
  by repeat case_bool_decide.
Qed.

(** A prefix of records that pass both checks only extends the seen set. *)
Lemma verify_loop_clean_prefix pre rest seen w os :
  objects (heap w) pre = Some os ->
  Forall self_consistent os ->
  NoDup (map signature os) ->
  (forall s, s ∈ map signature os -> s ∉ seen) ->
  verify_loop (pre ++ rest) seen w
  = verify_loop rest (seen ∪ list_to_set (map signature os)) w.
Proof.
  revert seen os. induction pre as [|r pre IH]; intros seen os; simpl objects.
  - intros [= <-] _ _ _. simpl. by rewrite (right_id_L ∅ (∪)).
  - destruct (heap w !! r) as [o|] eqn:Hr; [|done].
    destruct (objects (heap w) pre) as [os'|] eqn:Hpre; [|done].
    intros [= <-] [Ho Hos]%Forall_cons Hnd Hseen.
    apply self_consistent_signature in Ho.
    simpl in Hnd. apply NoDup_cons in Hnd as [Hfresh Hnd].
    rewrite <- app_comm_cons, (verify_loop_cons _ _ _ _ _ Hr), <- Ho.
    rewrite bool_decide_eq_true_2 by done. simpl negb. cbv iota.
    rewrite bool_decide_eq_false_2 by (apply Hseen; simpl; left).
    rewrite (IH _ _ eq_refl Hos Hnd).
    + simpl. by rewrite (assoc_L (∪)).
    + intros s Hs. apply not_elem_of_union. split.
      * apply Hseen. simpl. by right.
      * intros ->%elem_of_singleton. done.
Qed.

Lemma verify_loop_heap nfts seen w : heap (verify_loop nfts seen w).2 = heap w.
Proof.
  revert seen. induction nfts as [|r rest IH]; intros seen; [done|].
  destruct (heap w !! r) as [o|] eqn:Hr.
  - rewrite (verify_loop_cons _ _ _ _ _ Hr). by repeat case_match.
  - cbn [verify_loop]. unfold bind at 1, deref. by rewrite Hr.
Qed.

(** ** The verifier *)

Lemma cross_verify_clean_prefix pre rest w os :
  objects (heap w) pre = Some os ->
  Forall self_consistent os ->
  NoDup (map signature os) ->
  cross_verify_nfts (pre ++ rest) w
  = verify_loop rest (list_to_set (map signature os)) w.
Proof.
  intros Hos Hok Hnd. unfold cross_verify_nfts.
  rewrite (verify_loop_clean_prefix _ _ _ _ _ Hos Hok Hnd).
  - by rewrite (left_id_L ∅ (∪)).
  - intros s _. apply not_elem_of_empty.
Qed.

(** C10: on the empty list the loop body never runs and the verifier
    returns [True], printing nothing and leaving the world as it was. *)
Theorem cross_verify_nfts_empty (w : World) :
  cross_verify_nfts [] w = (Ok true, w).
Proof. reflexivity. Qed.

(** C1: records are examined in list order.  After a prefix of records
    that pass both checks, the next record decides: if its stored signature
    differs from the recomputed one the verifier returns [False] with the
    mismatch line naming it (whether or not the recomputed signature was
    seen before); otherwise, if the recomputed signature was seen before, it
    returns [False] with the duplicate line naming it; otherwise the
    signature joins the seen set and the loop goes on.  On failure the
    remaining references [post] are never looked at: they are arbitrary and
    may even dangle. *)
Theorem cross_verify_first_failure (w : World) (pre post : list ref) (r : ref)
    (os : list NFT) (nft : NFT) :
  objects (heap w) pre = Some os ->
  Forall self_consistent os ->
  NoDup (map signature os) ->
  heap w !! r = Some nft ->
  (~ self_consistent nft ->
   cross_verify_nfts (pre ++ r :: post) w
   = (Ok false, emit (Print (MismatchedSignature (token_id nft))) w))
  /\ (self_consistent nft -> signature nft ∈ map signature os ->
      cross_verify_nfts (pre ++ r :: post) w
      = (Ok false, emit (Print (DuplicateSignature (token_id nft))) w))
  /\ (self_consistent nft -> signature nft ∉ map signature os ->
      cross_verify_nfts (pre ++ r :: post) w
      = verify_loop post (list_to_set (map signature (os ++ [nft]))) w).
Proof.
  intros Hos Hok Hnd Hr.
  rewrite (cross_verify_clean_prefix _ _ _ _ Hos Hok Hnd).
  rewrite (verify_loop_cons _ _ _ _ _ Hr).
  rewrite self_consistent_signature. repeat split.
  - intros Hbad. rewrite bool_decide_eq_false_2; [done|congruence].
  - intros Hgood Hdup. rewrite <- Hgood.
    rewrite bool_decide_eq_true_2 by done. simpl negb. cbv iota.
    rewrite bool_decide_eq_true_2; [done|]. by apply elem_of_list_to_set.
  - intros Hgood Hnew. rewrite <- Hgood.
    rewrite bool_decide_eq_true_2 by done. simpl negb. cbv iota.
    rewrite bool_decide_eq_false_2 by (by rewrite elem_of_list_to_set).
    rewrite map_app, list_to_set_app_L. simpl.
    by rewrite (right_id_L ∅ (∪)).
Qed.

(** C3: when one record's stored signature differs from the digest of its
    metadata, and every other record of the store is self-consistent with
    pairwise distinct signatures, the verifier returns [False] and prints
    the mismatch line naming that record. *)
Theorem cross_verify_reports_mismatch (w : World) (pre post : list ref) (r : ref)
    (os_pre os_post : list NFT) (nft : NFT) :
  objects (heap w) pre = Some os_pre ->
  objects (heap w) post = Some os_post ->
  heap w !! r = Some nft ->
  Forall self_consistent (os_pre ++ os_post) ->
  NoDup (map signature (os_pre ++ os_post)) ->
  compute_signature (metadata nft) <> Ok (signature nft) ->
  cross_verify_nfts (pre ++ r :: post) w
  = (Ok false, emit (Print (MismatchedSignature (token_id nft))) w).
Proof.
  intros Hpre _ Hr [Hok _]%Forall_app Hnd Hbad.
  rewrite map_app in Hnd. apply NoDup_app in Hnd as (Hnd & _ & _).
  rewrite (cross_verify_clean_prefix _ _ _ _ Hpre Hok Hnd).
  rewrite (verify_loop_cons _ _ _ _ _ Hr).
  rewrite bool_decide_eq_false_2; [done|].
  intros E. apply Hbad. rewrite compute_signature_total. congruence.
Qed.

(** C4: when two records carry the same metadata and both are
    self-consistent, and the records up to the second one are otherwise
    self-consistent with pairwise distinct signatures, the verifier accepts
    everything up to and including the first occurrence and, at the second,
    returns [False] and prints the duplicate line naming the second
    record. *)
Theorem cross_verify_reports_duplicate (w : World) (pre mid post : list ref)
    (r1 r2 : ref) (os_pre os_mid : list NFT) (first second : NFT) :
  objects (heap w) pre = Some os_pre ->
  objects (heap w) mid = Some os_mid ->
  heap w !! r1 = Some first ->
  heap w !! r2 = Some second ->
  metadata second = metadata first ->
  self_consistent first ->
  self_consistent second ->
  Forall self_consistent (os_pre ++ os_mid) ->
  NoDup (map signature (os_pre ++ first :: os_mid)) ->
  cross_verify_nfts (pre ++ [r1]) w = (Ok true, w)
  /\ cross_verify_nfts (pre ++ r1 :: mid ++ r2 :: post) w
     = (Ok false, emit (Print (DuplicateSignature (token_id second))) w).
Proof.
  intros Hpre Hmid Hr1 Hr2 Hmeta Hfirst Hsecond [Hok1 Hok2]%Forall_app Hnd.
  assert (objects (heap w) (pre ++ r1 :: mid) = Some (os_pre ++ first :: os_mid))
    as Hall by auto using objects_app, objects_cons.
  assert (Forall self_consistent (os_pre ++ first :: os_mid)) as Hok.
  { apply Forall_app. split; [done|]. by constructor. }
  split.
  - assert (NoDup (map signature (os_pre ++ [first]))) as Hnd1.
    { rewrite map_app in *. simpl in *.
      apply NoDup_app in Hnd as (? & Hdisj & Hnd2). apply NoDup_app.
      repeat split; [done| |apply NoDup_singleton].
      intros s Hs ->%list_elem_of_singleton. apply (Hdisj _ Hs). left. }
    assert (objects (heap w) (pre ++ [r1]) = Some (os_pre ++ [first])) as Hone
      by (apply objects_app; [done|by apply objects_cons]).
    rewrite <- (app_nil_r (pre ++ [r1])).
    rewrite (cross_verify_clean_prefix _ _ _ _ Hone); [done| |done].
    apply Forall_app. split; [done|]. by constructor.
  - replace (pre ++ r1 :: mid ++ r2 :: post)
      with ((pre ++ r1 :: mid) ++ r2 :: post) by (by rewrite <- app_assoc).
    rewrite (cross_verify_clean_prefix _ _ _ _ Hall Hok Hnd).
    rewrite (verify_loop_cons _ _ _ _ _ Hr2).
    apply self_consistent_signature in Hfirst, Hsecond.
    rewrite <- Hsecond. rewrite bool_decide_eq_true_2 by done.
    simpl negb. cbv iota. rewrite bool_decide_eq_true_2; [done|].
    apply elem_of_list_to_set. rewrite Hsecond, Hmeta, <- Hfirst.
    rewrite map_app. apply elem_of_app. right. simpl. left.
Qed.

(** ** Construction *)

Lemma NFT_new_alloc tid md w :
  NFT_new tid md w
  = (Ok (length (heap w)), with_heap (heap w ++ [mkNFT tid md (signature_of md)]) w).
Proof.
  unfold NFT_new, bind, lift. by rewrite compute_signature_total.
Qed.

Lemma mock_nfts_alloc w :
  mock_nfts w
  = (Ok [length (heap w); S (length (heap w)); S (S (length (heap w)))],
     with_heap (heap w ++ mock_objects) w).
Proof.
  unfold mock_nfts, bind. rewrite NFT_new_alloc.
  rewrite NFT_new_alloc. rewrite NFT_new_alloc. unfold ret, with_heap; simpl.
  rewrite !length_app, <- !app_assoc. simpl.
  by rewrite !Nat.add_1_r.
Qed.

Lemma mock_objects_consistent : Forall self_consistent mock_objects.
Proof.
  repeat constructor; apply self_consistent_signature; reflexivity.
Qed.

Lemma mock_objects_distinct : NoDup (map signature mock_objects).
Proof. apply (bool_decide_unpack _). vm_compute. exact I. Qed.

Lemma objects_appended h os :
  objects (h ++ os) (seq (length h) (length os)) = Some os.
Proof.
  revert h. induction os as [|o os IH]; intros h; [done|].
  cbn [length seq]. apply objects_cons.
  - apply list_lookup_middle. done.
  - specialize (IH (h ++ [o])). rewrite <- app_assoc, length_app in IH.
    simpl in IH. by rewrite Nat.add_1_r in IH.
Qed.

(** C2: the store that [main] builds passes verification: the three
    records are self-consistent, their signatures are pairwise distinct, and
    [cross_verify_nfts] returns [True] on them without printing. *)
Theorem mock_nfts_verified (w : World) :
  exists nfts w1 os,
    mock_nfts w = (Ok nfts, w1)
    /\ objects (heap w1) nfts = Some os
    /\ map token_id os = [py "nft1"; py "nft2"; py "nft3"]
    /\ map metadata os = [metadata1; metadata2; metadata3]
    /\ Forall self_consistent os
    /\ NoDup (map signature os)
    /\ cross_verify_nfts nfts w1 = (Ok true, w1).
Proof.
  eexists _, _, mock_objects. split; [apply mock_nfts_alloc|].
  assert (objects (heap (with_heap (heap w ++ mock_objects) w))
            [length (heap w); S (length (heap w)); S (S (length (heap w)))]
          = Some mock_objects) as Hos by apply (objects_appended _ mock_objects).
  repeat split; auto using mock_objects_consistent, mock_objects_distinct.
  match goal with |- cross_verify_nfts ?l _ = _ => rewrite <- (app_nil_r l) end.
  by rewrite (cross_verify_clean_prefix _ _ _ _ Hos
                mock_objects_consistent mock_objects_distinct).
Qed.

(** ** Canonical serialisation *)

Lemma dumps_sorted_Permutation (m1 m2 : dict str str) :
  m1 ≡ₚ m2 -> JSON.dumps_sorted m1 = JSON.dumps_sorted m2.
Proof.
  intros Hperm. unfold JSON.dumps_sorted, item_lt.
  by rewrite (sorted_Permutation item_compare _ _ Hperm).
Qed.

(** C5: the signature computed when a record is built depends on the
    key-value pairs of the metadata only, not on their order: two mappings
    with the same items in any order give the same signature, and [NFT]
    stores that same signature for both. *)
Theorem signature_order_independent (m1 m2 : dict str str) :
  m1 ≡ₚ m2 ->
  compute_signature m1 = compute_signature m2
  /\ forall tid w,
       exists sig,
         compute_signature m1 = Ok sig
         /\ heap (NFT_new tid m1 w).2 = heap w ++ [mkNFT tid m1 sig]
         /\ heap (NFT_new tid m2 w).2 = heap w ++ [mkNFT tid m2 sig].
Proof.
  intros Hperm.
  assert (signature_of m1 = signature_of m2) as Hsig.
  { unfold signature_of. by rewrite (dumps_sorted_Permutation _ _ Hperm). }
  split.
  - by rewrite !compute_signature_total, Hsig.
  - intros tid w. exists (signature_of m1).
    rewrite !NFT_new_alloc, compute_signature_total, <- Hsig. done.
Qed.

(** ** The decision stub *)

Lemma py_sum_float values :
  values <> [] -> py_sum values = Float (fold_left PrimFloat.add values 0%float).
Proof.
  destruct values as [|v values]; [done|]. intros _. unfold py_sum. simpl.
  change (float_of_int 0) with 0%float.
  generalize (0 + v)%float. induction values as [|v' values IH]; intros acc; [done|].
  simpl. apply IH.
Qed.

Lemma think_nonempty readings w :
  readings <> [] ->
  let avg := arithmetic_mean (map snd readings) in
  let status :=
    if ((24.0 <=? avg) && (avg <=? 26.0))%float then py "normal" else py "anomaly" in
  think readings w = (Ok (status, avg), emit (Print (AverageReading avg status)) w).
Proof.
  intros Hne. unfold think, bind, lift, truediv, arithmetic_mean.
  assert ((Z.of_nat (length readings) =? 0)%Z = false) as ->.
  { apply Z.eqb_neq. destruct readings; [done|]. simpl. lia. }
  rewrite py_sum_float by (by destruct readings).
  simpl to_float. by rewrite length_map.
Qed.

Lemma think_empty w : think [] w = (Raise ZeroDivisionError, w).
Proof. reflexivity. Qed.

(** C6: on a non-empty reading [think] returns the mean of the channel
    values with the label [normal] when [24.0 <= mean <= 26.0] and
    [anomaly] otherwise.  Both bounds are inclusive: a mean equal to 24.0 or
    to 26.0 is in the band.  For [{a: 24.0, b: 26.0}] the result is
    [("normal", 25.0)], for [{a: 10.0, b: 10.0}] it is [("anomaly", 10.0)]. *)
Theorem think_classifies (readings : dict str float) (w : World) :
  readings <> [] ->
  let avg := arithmetic_mean (map snd readings) in
  (exists status,
      think readings w = (Ok (status, avg), emit (Print (AverageReading avg status)) w)
      /\ (in_band avg -> status = py "normal")
      /\ (~ in_band avg -> status = py "anomaly"))
  /\ (avg = 24.0%float \/ avg = 26.0%float -> in_band avg)
  /\ (think [(py "a", 24.0%float); (py "b", 26.0%float)] w).1
     = Ok (py "normal", 25.0%float)
  /\ (think [(py "a", 10.0%float); (py "b", 10.0%float)] w).1
     = Ok (py "anomaly", 10.0%float).
Proof.
  intros Hne avg. split; [|split; [|split]].
  - eexists. split; [by apply think_nonempty|]. fold avg. unfold in_band.
    destruct (24.0 <=? avg)%float, (avg <=? 26.0)%float; simpl;
      (split; [by intros [? ?] | intros Hout; try done; by destruct Hout]).
  - by intros [-> | ->].
  - by rewrite think_nonempty.
  - by rewrite think_nonempty.
Qed.

(** C7: [think] raises [ZeroDivisionError] exactly when the reading is
    empty, and returns a result exactly when it is not. *)
Theorem think_domain_error (readings : dict str float) (w : World) :
  ((think readings w).1 = Raise ZeroDivisionError <-> readings = [])
  /\ ((exists result, (think readings w).1 = Ok result) <-> readings <> []).
Proof.
  destruct readings as [|kv readings].
  - rewrite think_empty. simpl. split; split; try done. by intros [? ?].
  - rewrite think_nonempty by done. simpl. split; split; try done. eauto.
Qed.

(** ** The orchestrator *)

Lemma update_run w :
  exists readings w',
    update w = (Ok readings, w') /\ readings <> []
    /\ trace w' = trace w ++ [Print (SensorReadings readings)]
    /\ heap w' = heap w.
Proof.
  unfold update, bind, uniform_round2, print, ret. cbv beta iota zeta.
  eexists _, _. split; [reflexivity|]. by repeat split.
Qed.

Lemma think_run readings w :
  readings <> [] ->
  exists status avg,
    think readings w = (Ok (status, avg), emit (Print (AverageReading avg status)) w).
Proof. intros Hne. eexists _, _. by apply think_nonempty. Qed.

Lemma act_run status value w :
  exists line,
    act status value w = (Ok tt, emit (Print line) w)
    /\ stage_of (Print line) = Some StAct.
Proof. unfold act. case_bool_decide; by eexists. Qed.

Lemma breath_run cycle w :
  exists timestamp w',
    breath cycle w = (Ok tt, w')
    /\ trace w' = trace w ++ [Print (Heartbeat timestamp cycle)]
    /\ heap w' = heap w.
Proof.
  unfold breath, bind, strftime, print. cbv beta iota zeta.
  eexists _, _. split; [reflexivity|]. by repeat split.
Qed.

Lemma stages_body_run cycle w :
  exists evs w',
    stages_body cycle w = (Ok tt, w')
    /\ trace w' = trace w ++ evs
    /\ stages evs = cycle_stages
    /\ cycles_begun evs = []
    /\ heap w' = heap w.
Proof.
  unfold stages_body.
  destruct (update_run w) as (readings & w1 & Hupdate & Hne & Ht1 & Hh1).
  unfold bind at 1. rewrite Hupdate.
  destruct (think_run readings w1 Hne) as (status & avg & Hthink).
  unfold bind at 1. rewrite Hthink.
  destruct (act_run status avg (emit (Print (AverageReading avg status)) w1))
    as (line & Hact & Hline).
  unfold bind at 1. rewrite Hact.
  destruct (breath_run cycle (emit (Print line) (emit (Print (AverageReading avg status)) w1)))
    as (timestamp & w2 & Hbreath & Ht2 & Hh2).
  unfold bind at 1. rewrite Hbreath.
  eexists _, _. split; [reflexivity|].
  simpl. rewrite Ht2. simpl. rewrite Ht1, Hh2. simpl. rewrite Hh1.
  rewrite <- !app_assoc. simpl. split; [reflexivity|].
  unfold stages, cycles_begun. simpl. destruct line; try done.
Qed.

Lemma main_loop_cons verifier nfts cycle rest w :
  main_loop verifier nfts (cycle :: rest) w =
    match verifier nfts (emit (Print (CycleBanner cycle)) w) with
    | (Ok true, w1) =>
        match stages_body cycle w1 with
        | (Ok _, w2) => main_loop verifier nfts rest w2
        | (Raise e, w2) => (Raise e, w2)
        end
    | (Ok false, w1) => (Ok tt, emit (Print FatalVerificationFailed) w1)
    | (Raise e, w1) => (Raise e, w1)
    end.
Proof.
  cbn [main_loop]. unfold bind at 1. unfold print at 1.
  unfold bind at 1. destruct (verifier nfts _) as [[[|]|e] w1]; try done.
  change (negb true) with false. cbv beta iota. unfold stages_body, bind.
  destruct (update w1) as [[readings|e] w2]; [|done].
  destruct (think readings w2) as [[[status value]|e] w3]; [|done].
  destruct (act status value w3) as [[[]|e] w4]; [|done].
  destruct (breath cycle w4) as [[[]|e] w5]; [|done].
  by destruct (sleep 0.5 w5) as [[[]|e] w6].
Qed.

Lemma stages_app evs1 evs2 : stages (evs1 ++ evs2) = stages evs1 ++ stages evs2.
Proof. apply omap_app. Qed.

Lemma cycles_begun_app evs1 evs2 :
  cycles_begun (evs1 ++ evs2) = cycles_begun evs1 ++ cycles_begun evs2.
Proof. apply omap_app. Qed.

Lemma current_cycle_banner evs c :
  current_cycle (evs ++ [Print (CycleBanner c)]) = c.
Proof. unfold current_cycle. by rewrite fold_left_app. Qed.

(** With a verifier that returns [True] and leaves the world alone in every
    world over the same heap, every cycle of the list runs in full. *)
Lemma main_loop_verified verifier nfts cycles w :
  (forall w', heap w' = heap w -> verifier nfts w' = (Ok true, w')) ->
  exists evs w',
    main_loop verifier nfts cycles w = (Ok tt, w')
    /\ trace w' = trace w ++ evs
    /\ stages evs = full_cycles (length cycles)
    /\ cycles_begun evs = cycles
    /\ heap w' = heap w.
Proof.
  revert w. induction cycles as [|c cycles IH]; intros w Hv.
  - exists [], w. by rewrite app_nil_r.
  - rewrite main_loop_cons, Hv by done.
    destruct (stages_body_run c (emit (Print (CycleBanner c)) w))
      as (evs1 & w1 & -> & Ht1 & Hs1 & Hb1 & Hh1).
    destruct (IH w1) as (evs2 & w2 & -> & Ht2 & Hs2 & Hb2 & Hh2).
    { intros w' Hw'. apply Hv. by rewrite Hw', Hh1. }
    exists (Print (CycleBanner c) :: evs1 ++ evs2), w2.
    split; [done|]. split; [|split; [|split]].
    + rewrite Ht2, Ht1. simpl. by rewrite <- !app_assoc.
    + change (stages (?e :: ?l)) with (stages l).
      rewrite stages_app, Hs1, Hs2. done.
    + change (cycles_begun (Print (CycleBanner c) :: ?l)) with (c :: cycles_begun l).
      by rewrite cycles_begun_app, Hb1, Hb2.
    + by rewrite Hh2, Hh1.
Qed.

(** With a verifier that returns [False] during cycle [k] and [True]
    during the others, the cycles before [k] run in full, cycle [k] stops
    after its banner with the fatal line, and the cycles after [k] are not
    begun. *)
Lemma main_loop_fails_on verifier k nfts pre post w :
  (forall w', current_cycle (trace w') <> k -> verifier nfts w' = (Ok true, w')) ->
  (forall w', current_cycle (trace w') = k -> verifier nfts w' = (Ok false, w')) ->
  k ∉ pre ->
  exists evs w',
    main_loop verifier nfts (pre ++ k :: post) w = (Ok tt, w')
    /\ trace w' = trace w ++ evs
    /\ stages evs = full_cycles (length pre)
    /\ cycles_begun evs = pre ++ [k]
    /\ last evs = Some (Print FatalVerificationFailed).
Proof.
  intros Hpass Hfail. revert w. induction pre as [|c pre IH]; intros w Hk.
  - simpl app. rewrite main_loop_cons, Hfail by apply current_cycle_banner.
    eexists [Print (CycleBanner k); Print FatalVerificationFailed], _.
    split; [done|]. simpl. by rewrite <- app_assoc.
  - apply not_elem_of_cons in Hk as [Hck Hk].
    rewrite <- app_comm_cons, main_loop_cons, Hpass
      by (cbn [trace emit]; rewrite current_cycle_banner; congruence).
    destruct (stages_body_run c (emit (Print (CycleBanner c)) w))
      as (evs1 & w1 & -> & Ht1 & Hs1 & Hb1 & Hh1).
    destruct (IH w1 Hk) as (evs2 & w2 & -> & Ht2 & Hs2 & Hb2 & Hlast).
    exists (Print (CycleBanner c) :: evs1 ++ evs2), w2.
    split; [done|]. split; [|split; [|split]].
    + rewrite Ht2, Ht1. simpl. by rewrite <- !app_assoc.
    + change (stages (?e :: ?l)) with (stages l).
      rewrite stages_app, Hs1, Hs2. done.
    + change (cycles_begun (Print (CycleBanner c) :: ?l)) with (c :: cycles_begun l).
      by rewrite cycles_begun_app, Hb1, Hb2.
    + rewrite app_comm_cons, last_app, Hlast. done.
Qed.

(** C8: over the five cycles of [main], with a verifier that succeeds
    every time the loop runs update, think, act and breath five times each,
    in that order within each cycle, and returns normally; with a verifier
    that fails on cycle 3 it runs them twice each (cycles 1 and 2), begins
    cycle 3, prints the fatal line and returns normally without running any
    stage a third time. *)
Theorem main_loop_five_cycles (verifier : list ref -> M bool) (nfts : list ref)
    (w : World) :
  ((forall w', verifier nfts w' = (Ok true, w')) ->
   exists evs w',
     main_loop verifier nfts (range 1 (MAX_CYCLES + 1)) w = (Ok tt, w')
     /\ trace w' = trace w ++ evs
     /\ cycles_begun evs = [1; 2; 3; 4; 5]%Z
     /\ stages evs =
          [StUpdate; StThink; StAct; StBreath;
           StUpdate; StThink; StAct; StBreath;
           StUpdate; StThink; StAct; StBreath;
           StUpdate; StThink; StAct; StBreath;
           StUpdate; StThink; StAct; StBreath])
  /\ ((forall w', current_cycle (trace w') <> 3%Z ->
                  verifier nfts w' = (Ok true, w')) ->
      (forall w', current_cycle (trace w') = 3%Z ->
                  verifier nfts w' = (Ok false, w')) ->
      exists evs w',
        main_loop verifier nfts (range 1 (MAX_CYCLES + 1)) w = (Ok tt, w')
        /\ trace w' = trace w ++ evs
        /\ cycles_begun evs = [1; 2; 3]%Z
        /\ stages evs =
             [StUpdate; StThink; StAct; StBreath;
              StUpdate; StThink; StAct; StBreath]
        /\ last evs = Some (Print FatalVerificationFailed)).
Proof.
  change (range 1 (MAX_CYCLES + 1)) with [1; 2; 3; 4; 5]%Z. split.
  - intros Hpass.
    destruct (main_loop_verified verifier nfts [1; 2; 3; 4; 5]%Z w)
      as (evs & w' & Hrun & Ht & Hs & Hb & _); [done|].
    by exists evs, w'.
  - intros Hpass Hfail.
    destruct (main_loop_fails_on verifier 3 nfts [1; 2]%Z [4; 5]%Z w Hpass Hfail)
      as (evs & w' & Hrun & Ht & Hs & Hb & Hlast).
    { intros Hin. repeat (apply elem_of_cons in Hin as [?|Hin]; [done|]).
      by apply elem_of_nil in Hin. }
    by exists evs, w'.
Qed.

(** ** The records never change *)

Lemma cross_verify_heap nfts w : heap (cross_verify_nfts nfts w).2 = heap w.
Proof. apply verify_loop_heap. Qed.

Lemma update_heap w : heap (update w).2 = heap w.
Proof. by destruct (update_run w) as (? & ? & -> & _ & _ & ?). Qed.

Lemma think_heap readings w : heap (think readings w).2 = heap w.
Proof.
  destruct readings as [|kv readings]; [done|]. by rewrite think_nonempty.
Qed.

Lemma act_heap status value w : heap (act status value w).2 = heap w.
Proof. by destruct (act_run status value w) as (? & -> & _). Qed.

Lemma breath_heap cycle w : heap (breath cycle w).2 = heap w.
Proof. by destruct (breath_run cycle w) as (? & ? & -> & _ & ?). Qed.

Lemma main_loop_heap nfts cycles w :
  heap (main_loop cross_verify_nfts nfts cycles w).2 = heap w.
Proof.
  revert w. induction cycles as [|c cycles IH]; intros w; [done|].
  rewrite main_loop_cons.
  pose proof (cross_verify_heap nfts (emit (Print (CycleBanner c)) w)) as Hv.
  destruct (cross_verify_nfts nfts _) as [[[|]|e] w1]; simpl in Hv; try done.
  destruct (stages_body_run c w1) as (? & w2 & -> & _ & _ & _ & Hh2).
  by rewrite IH, Hh2.
Qed.

Lemma mock_nfts_verify_in w w' :
  heap w' = heap w ++ mock_objects ->
  cross_verify_nfts [length (heap w); S (length (heap w)); S (S (length (heap w)))] w'
  = (Ok true, w').
Proof.
  intros Hh.
  assert (objects (heap w')
            [length (heap w); S (length (heap w)); S (S (length (heap w)))]
          = Some mock_objects) as Hos.
  { rewrite Hh. apply (objects_appended _ mock_objects). }
  match goal with |- cross_verify_nfts ?l _ = _ => rewrite <- (app_nil_r l) end.
  by rewrite (cross_verify_clean_prefix _ _ _ _ Hos
                mock_objects_consistent mock_objects_distinct).
Qed.

(** The whole program: three records are built, then five full cycles run. *)
Lemma main_run w :
  exists evs w',
    main w = (Ok tt, w')
    /\ heap w' = heap w ++ mock_objects
    /\ trace w' = trace w ++ evs
    /\ cycles_begun evs = [1; 2; 3; 4; 5]%Z
    /\ stages evs = full_cycles 5.
Proof.
  unfold main, bind at 1. rewrite mock_nfts_alloc.
  change (range 1 (MAX_CYCLES + 1)) with [1; 2; 3; 4; 5]%Z.
  destruct (main_loop_verified cross_verify_nfts
              [length (heap w); S (length (heap w)); S (S (length (heap w)))]
              [1; 2; 3; 4; 5]%Z (with_heap (heap w ++ mock_objects) w))
    as (evs & w' & Hrun & Ht & Hs & Hb & Hh).
  { intros w' Hw'. by apply mock_nfts_verify_in. }
  by exists evs, w'.
Qed.

(** C9: [NFT] computes the signature when the record is built, so that a
    new record is self-consistent; afterwards the heap of records is left
    exactly as it was by the verifier, by update, think, act and breath, and
    by the loop of [main] over any number of cycles.  Hence every record
    that [main] ever holds, those it builds included, is self-consistent
    throughout, and [main] ends with the heap it had after construction. *)
Theorem records_never_change :
  (forall tid md w,
      exists o,
        NFT_new tid md w = (Ok (length (heap w)), with_heap (heap w ++ [o]) w)
        /\ token_id o = tid /\ metadata o = md /\ self_consistent o)
  /\ (forall nfts w, heap (cross_verify_nfts nfts w).2 = heap w)
  /\ (forall w, heap (update w).2 = heap w)
  /\ (forall readings w, heap (think readings w).2 = heap w)
  /\ (forall status value w, heap (act status value w).2 = heap w)
  /\ (forall cycle w, heap (breath cycle w).2 = heap w)
  /\ (forall nfts cycles w,
         heap (main_loop cross_verify_nfts nfts cycles w).2 = heap w)
  /\ (forall w,
         Forall self_consistent (heap w) ->
         exists w',
           main w = (Ok tt, w')
           /\ heap w' = heap w ++ mock_objects
           /\ Forall self_consistent (heap w')).
Proof.
  repeat apply conj;
    auto using cross_verify_heap, update_heap, think_heap, act_heap,
      breath_heap, main_loop_heap.
  - intros tid md w. eexists. split; [apply NFT_new_alloc|].
    repeat split. by apply self_consistent_signature.
  - intros w Hw. destruct (main_run w) as (evs & w' & Hrun & Hh & _).
    exists w'. repeat split; [done..|]. rewrite Hh.
    apply Forall_app. auto using mock_objects_consistent.
Qed.

(** ** The statements at sample inputs *)

Ltac by_computation := vm_compute; reflexivity.
Ltac distinct_by_computation := apply (bool_decide_unpack _); vm_compute; exact I.

(** A forged clone after two good records: the mismatch is reported, not
    the duplicate, and the dangling reference [7] after it is never used. *)
Lemma cross_verify_first_failure_witness :
  cross_verify_nfts [0; 1; 3; 2; 7] forged_world
  = (Ok false, emit (Print (MismatchedSignature (py "nft9"))) forged_world).
Proof.
  refine (proj1 (cross_verify_first_failure forged_world [0; 1] [2; 7] 3
                   [object1; object2] forged1 _ _ _ _) _).
  - by_computation.
  - repeat constructor; by_computation.
  - distinct_by_computation.
  - by_computation.
  - intros H. vm_compute in H. discriminate H.
Defined.

Lemma cross_verify_reports_mismatch_witness :
  cross_verify_nfts [0; 1; 2] tampered_world
  = (Ok false, emit (Print (MismatchedSignature (py "nft2"))) tampered_world).
Proof.
  refine (cross_verify_reports_mismatch tampered_world [0] [2] 1
            [object1] [object3] tampered2 _ _ _ _ _ _).
  - by_computation.
  - by_computation.
  - by_computation.
  - repeat constructor; by_computation.
  - distinct_by_computation.
  - intros H. vm_compute in H. discriminate H.
Defined.

Lemma cross_verify_reports_duplicate_witness :
  cross_verify_nfts [0] cloned_world = (Ok true, cloned_world)
  /\ cross_verify_nfts [0; 1; 2; 3] cloned_world
     = (Ok false, emit (Print (DuplicateSignature (py "nft4"))) cloned_world).
Proof.
  refine (cross_verify_reports_duplicate cloned_world [] [1] [3] 0 2
            [] [object2] object1 clone1 _ _ _ _ _ _ _ _ _).
  - by_computation.
  - by_computation.
  - by_computation.
  - by_computation.
  - reflexivity.
  - by_computation.
  - by_computation.
  - repeat constructor; by_computation.
  - distinct_by_computation.
Defined.

Lemma signature_order_independent_witness :
  compute_signature metadata1 = compute_signature metadata1_reordered.
Proof.
  refine (proj1 (signature_order_independent metadata1 metadata1_reordered _)).
  apply (Permutation_cons_append (tail metadata1) (py "owner", py "alice")).
Defined.

Lemma think_classifies_witness :
  let readings := [(py "a", 24.0%float); (py "b", 26.0%float)] in
  let avg := arithmetic_mean (map snd readings) in
  exists status,
    think readings (world_of [])
    = (Ok (status, avg), emit (Print (AverageReading avg status)) (world_of []))
    /\ (in_band avg -> status = py "normal")
    /\ (~ in_band avg -> status = py "anomaly").
Proof.
  refine (proj1 (think_classifies [(py "a", 24.0%float); (py "b", 26.0%float)]
                   (world_of []) _)).
  discriminate.
Defined.

(** The loop against the two stand-in verifiers, from a world with nothing
    printed yet: the stages of five cycles, and of two. *)
Lemma main_loop_five_cycles_witness :
  (exists w',
      main_loop always_succeeds [] (range 1 (MAX_CYCLES + 1)) (world_of []) = (Ok tt, w')
      /\ stages (trace w') = full_cycles 5)
  /\ (exists w',
         main_loop (fails_on_cycle 3) [] (range 1 (MAX_CYCLES + 1)) (world_of [])
         = (Ok tt, w')
         /\ stages (trace w') = full_cycles 2
         /\ last (trace w') = Some (Print FatalVerificationFailed)).
Proof.
  split.
  - destruct (proj1 (main_loop_five_cycles always_succeeds [] (world_of [])))
      as (evs & w' & Hrun & Ht & _ & Hs).
    + reflexivity.
    + exists w'. split; [exact Hrun|]. rewrite Ht. exact Hs.
  - destruct (proj2 (main_loop_five_cycles (fails_on_cycle 3) [] (world_of [])))
      as (evs & w' & Hrun & Ht & _ & Hs & Hlast).
    + intros w' Hw'. unfold fails_on_cycle.
      apply Z.eqb_neq in Hw'. rewrite Hw'. reflexivity.
    + intros w' Hw'. unfold fails_on_cycle. rewrite Hw'. reflexivity.
    + exists w'. split; [exact Hrun|]. rewrite Ht. split; [exact Hs|exact Hlast].
Defined.

(** * Further properties *)

(** ** The verdict of the verifier *)

(** The loop either accepts, and then the records are self-consistent with
    fresh, pairwise distinct signatures, or it prints one error line naming
    one of the records and answers [False]. *)
Lemma verify_loop_outcome refs seen w os :
  objects (heap w) refs = Some os ->
  let accepted :=
    Forall self_consistent os /\ NoDup (map signature os)
    /\ (forall s, s ∈ map signature os -> s ∉ seen) in
  (verify_loop refs seen w = (Ok true, w) /\ accepted)
  \/ (exists o e,
         o ∈ os /\ names_record e o
         /\ verify_loop refs seen w = (Ok false, emit e w) /\ ~ accepted).
Proof.
  revert seen os. induction refs as [|r refs IH]; intros seen os; simpl objects.
  - intros [= <-]. left. repeat split; try constructor.
    intros s Hs. by apply elem_of_nil in Hs.
  - destruct (heap w !! r) as [o|] eqn:Hr; [|done].
    destruct (objects (heap w) refs) as [os'|] eqn:Hos; [|done].
    intros [= <-]. cbv zeta. rewrite (verify_loop_cons _ _ _ _ _ Hr).
    case_bool_decide as Hsig; simpl negb; cbv iota.
    2:{ right. exists o, (Print (MismatchedSignature (token_id o))).
        repeat split; [left|by left|].
        intros ([Ho _]%Forall_cons & _). apply self_consistent_signature in Ho.
        congruence. }
    case_bool_decide as Hseen.
    { right. exists o, (Print (DuplicateSignature (token_id o))).
      repeat split; [left|by right|].
      intros (_ & _ & Hfresh). apply (Hfresh (signature o)); [simpl; left|].
      by rewrite <- Hsig. }
    destruct (IH (seen ∪ {[signature_of (metadata o)]}) os' eq_refl)
      as [(Hrun & Hok & Hnd & Hfresh) | (o' & e & Ho' & He & Hrun & Hbad)].
    + left. split; [done|]. repeat split.
      * constructor; [by apply self_consistent_signature|done].
      * simpl. apply NoDup_cons. split; [|done].
        intros Hin. apply (Hfresh _ Hin). rewrite <- Hsig.
        by apply elem_of_union_r, elem_of_singleton.
      * intros s [->|Hs]%elem_of_cons; [by rewrite <- Hsig|].
        intros Hin. by apply (Hfresh _ Hs), elem_of_union_l.
    + right. exists o', e. repeat split; [by right|done|done|].
      intros ([_ Hok]%Forall_cons & Hnd & Hfresh). apply Hbad.
      simpl in Hnd. apply NoDup_cons in Hnd as [Hnew Hnd].
      repeat split; [done..|].
      intros s Hs. apply not_elem_of_union. split.
      * apply Hfresh. simpl. by right.
      * intros ->%elem_of_singleton. by rewrite Hsig in Hs.
Qed.

Lemma cross_verify_outcome refs w os :
  objects (heap w) refs = Some os ->
  (cross_verify_nfts refs w = (Ok true, w) /\ store_valid os)
  \/ (exists o e,
         o ∈ os /\ names_record e o
         /\ cross_verify_nfts refs w = (Ok false, emit e w) /\ ~ store_valid os).
Proof.
  intros Hos. unfold cross_verify_nfts, store_valid.
  destruct (verify_loop_outcome refs ∅ w os Hos)
    as [(Hrun & Hok & Hnd & _) | (o & e & Ho & He & Hrun & Hbad)].
  - by left.
  - right. exists o, e. split; [done|]. split; [done|]. split; [done|].
    intros [Hok Hnd]. apply Hbad. split; [done|]. split; [done|].
    intros s _. apply not_elem_of_empty.
Qed.


(** X2: the verifier prints nothing when it answers [True] and leaves the
    world as it was; when it answers [False] it has printed exactly one
    line, a mismatch or duplicate line naming one of the listed records,
    and changed nothing else. *)
Theorem cross_verify_prints_one_line (w : World) (refs : list ref) (os : list NFT) :
  objects (heap w) refs = Some os ->
  exists verdict,
    (cross_verify_nfts refs w).1 = Ok verdict
    /\ if verdict then (cross_verify_nfts refs w).2 = w
       else exists o e,
              o ∈ os /\ names_record e o
              /\ (cross_verify_nfts refs w).2 = emit e w.
Proof.
  intros Hos.
  destruct (cross_verify_outcome refs w os Hos)
    as [(-> & _) | (o & e & Ho & He & -> & _)].
  - by exists true.
  - exists false. split; [done|]. by exists o, e.
Qed.

Lemma objects_cons_inv h r refs os :
  objects h (r :: refs) = Some os ->
  exists o os', h !! r = Some o /\ objects h refs = Some os' /\ os = o :: os'.
Proof.
  simpl. destruct (h !! r) as [o|]; [|done].
  destruct (objects h refs) as [os'|]; [|done].
  intros [= <-]. by exists o, os'.
Qed.

Lemma objects_app_inv h pre post os :
  objects h (pre ++ post) = Some os ->
  exists os1 os2,
    os = os1 ++ os2 /\ objects h pre = Some os1 /\ objects h post = Some os2.
Proof.
  revert os. induction pre as [|r pre IH]; intros os.
  - intros H. by exists [], os.
  - rewrite <- app_comm_cons.
    intros (o & os' & Hr & Hrest & ->)%objects_cons_inv.
    destruct (IH _ Hrest) as (os1 & os2 & -> & Hpre & Hpost).
    exists (o :: os1), os2. split; [done|]. split; [|done].
    by apply objects_cons.
Qed.

Lemma objects_Permutation h refs refs' :
  refs ≡ₚ refs' ->
  forall os, objects h refs = Some os ->
             exists os', objects h refs' = Some os' /\ os ≡ₚ os'.
Proof.
  induction 1 as [|x l l' _ IH|x y l|l l' l'' _ IH1 _ IH2]; intros os.
  - intros [= <-]. by exists [].
  - intros (o & os0 & Hx & Hl & ->)%objects_cons_inv.
    destruct (IH _ Hl) as (os0' & Hl' & Hperm).
    exists (o :: os0'). split; [by apply objects_cons|by constructor].
  - intros (oy & os1 & Hy & (ox & os0 & Hx & Hl & ->)%objects_cons_inv & ->)%objects_cons_inv.
    exists (ox :: oy :: os0). split; [by repeat apply objects_cons|constructor].
  - intros Hl. destruct (IH1 _ Hl) as (os' & Hl' & Hp1).
    destruct (IH2 _ Hl') as (os'' & Hl'' & Hp2).
    exists os''. split; [done|by etrans].
Qed.

Lemma store_valid_Permutation os os' : os ≡ₚ os' -> store_valid os -> store_valid os'.
Proof.
  intros Hperm [Hok Hnd]. split.
  - by rewrite <- Hperm.
  - by rewrite <- (Permutation_map signature Hperm).
Qed.

Lemma store_valid_ext os1 os2 :
  map metadata os1 = map metadata os2 ->
  map signature os1 = map signature os2 ->
  store_valid os1 -> store_valid os2.
Proof.
  intros Hmd Hsig [Hok Hnd]. split; [|by rewrite <- Hsig].
  clear Hnd. revert os2 Hmd Hsig.
  induction Hok as [|o1 os1 Ho1 _ IH]; intros [|o2 os2]; simpl; try done.
  intros [= Hmd1 Hmd] [= Hsig1 Hsig]. constructor; [|by apply IH].
  unfold self_consistent in *. by rewrite <- Hmd1, <- Hsig1.
Qed.

(** X3: the verdict does not depend on the order of the list: two lists
    with the same references in any order are both accepted or both
    rejected (the order only decides which record a rejection names). *)
Theorem cross_verify_verdict_order_independent (w : World) (refs refs' : list ref)
    (os : list NFT) :
  refs ≡ₚ refs' ->
  objects (heap w) refs = Some os ->
  (cross_verify_nfts refs w).1 = (cross_verify_nfts refs' w).1.
Proof.
  intros Hperm Hos.
  destruct (objects_Permutation _ _ _ Hperm _ Hos) as (os' & Hos' & Hp).
  destruct (cross_verify_outcome refs w os Hos)
    as [(-> & Hv) | (? & ? & _ & _ & -> & Hbad)];
    destruct (cross_verify_outcome refs' w os' Hos')
      as [(-> & Hv') | (? & ? & _ & _ & -> & Hbad')]; simpl; try done.
  - destruct Hbad'. by apply (store_valid_Permutation os).
  - destruct Hbad. by apply (store_valid_Permutation os').
Qed.

(** X4: a record is reported as a duplicate of an earlier one also when
    its metadata lists the same items in another key order: after records
    that pass, a self-consistent record whose items are a permutation of
    those of an accepted record gets the duplicate line naming it. *)
Theorem cross_verify_duplicate_any_key_order (w : World) (pre mid post : list ref)
    (r1 r2 : ref) (os_pre os_mid : list NFT) (first second : NFT) :
  objects (heap w) pre = Some os_pre ->
  objects (heap w) mid = Some os_mid ->
  heap w !! r1 = Some first ->
  heap w !! r2 = Some second ->
  metadata second ≡ₚ metadata first ->
  self_consistent second ->
  store_valid (os_pre ++ first :: os_mid) ->
  cross_verify_nfts (pre ++ r1 :: mid ++ r2 :: post) w
  = (Ok false, emit (Print (DuplicateSignature (token_id second))) w).
Proof.
  intros Hpre Hmid Hr1 Hr2 Hperm Hsecond [Hok Hnd].
  assert (objects (heap w) (pre ++ r1 :: mid) = Some (os_pre ++ first :: os_mid))
    as Hall by auto using objects_app, objects_cons.
  replace (pre ++ r1 :: mid ++ r2 :: post)
    with ((pre ++ r1 :: mid) ++ r2 :: post) by (by rewrite <- app_assoc).
  rewrite (cross_verify_clean_prefix _ _ _ _ Hall Hok Hnd).
  rewrite (verify_loop_cons _ _ _ _ _ Hr2).
  apply self_consistent_signature in Hsecond.
  rewrite <- Hsecond. rewrite bool_decide_eq_true_2 by done.
  simpl negb. cbv iota. rewrite bool_decide_eq_true_2; [done|].
  apply elem_of_list_to_set.
  assert (signature second = signature first) as ->.
  { rewrite Hsecond. unfold signature_of.
    rewrite (dumps_sorted_Permutation _ _ Hperm).
    apply Forall_app in Hok as [_ [Hfirst _]%Forall_cons].
    by apply self_consistent_signature in Hfirst. }
  rewrite map_app. apply elem_of_app. right. simpl. left.
Qed.

(** X5: the identifiers play no part in the verdict: two stores whose
    records have, position by position, the same metadata and the same
    stored signatures get the same answer, whatever their [token_id]s; in
    particular identifiers need not be unique for a store to be accepted. *)
Theorem cross_verify_ignores_token_id (w1 w2 : World) (refs1 refs2 : list ref)
    (os1 os2 : list NFT) :
  objects (heap w1) refs1 = Some os1 ->
  objects (heap w2) refs2 = Some os2 ->
  map metadata os1 = map metadata os2 ->
  map signature os1 = map signature os2 ->
  (cross_verify_nfts refs1 w1).1 = (cross_verify_nfts refs2 w2).1.
Proof.
  intros Hos1 Hos2 Hmd Hsig.
  destruct (cross_verify_outcome refs1 w1 os1 Hos1)
    as [(-> & Hv) | (? & ? & _ & _ & -> & Hbad)];
    destruct (cross_verify_outcome refs2 w2 os2 Hos2)
      as [(-> & Hv') | (? & ? & _ & _ & -> & Hbad')]; simpl; try done.
  - destruct Hbad'. by apply (store_valid_ext os1).
  - destruct Hbad. by apply (store_valid_ext os2).
Qed.

(** X6: a list that holds the same reference twice is always rejected:
    the record meets its own signature in the seen set (or fails the
    mismatch check before that). *)
Theorem cross_verify_rejects_repeated_reference (w : World)
    (pre mid post : list ref) (r : ref) (os : list NFT) :
  objects (heap w) (pre ++ r :: mid ++ r :: post) = Some os ->
  (cross_verify_nfts (pre ++ r :: mid ++ r :: post) w).1 = Ok false.
Proof.
  intros Hos.
  destruct (cross_verify_outcome _ w os Hos)
    as [(_ & _ & Hnd) | (? & ? & _ & _ & -> & _)]; [|done].
  exfalso.
  apply objects_app_inv in Hos as (os1 & os2 & -> & _ & Hos).
  apply objects_cons_inv in Hos as (o & os3 & Hr & Hos & ->).
  apply objects_app_inv in Hos as (os4 & os5 & -> & _ & Hos).
  apply objects_cons_inv in Hos as (o' & os6 & Hr' & _ & ->).
  assert (o' = o) as -> by congruence.
  rewrite map_app in Hnd. apply NoDup_app in Hnd as (_ & _ & Hnd).
  simpl in Hnd. apply NoDup_cons in Hnd as [Hnew _]. apply Hnew.
  rewrite map_app. apply elem_of_app. right. simpl. left.
Qed.

(** X7: with the real verifier the loop never stops midway.  Nothing
    changes the records between cycles, so either the store is valid and
    every cycle of the list runs in full, or it is not and the loop ends in
    its first cycle after three lines (banner, error line, fatal line)
    without running any stage, drawing any random value or sleeping. *)
Theorem main_loop_all_or_nothing (w : World) (nfts : list ref) (cycles : list Z)
    (os : list NFT) :
  objects (heap w) nfts = Some os ->
  (store_valid os ->
   exists evs w',
     main_loop cross_verify_nfts nfts cycles w = (Ok tt, w')
     /\ trace w' = trace w ++ evs
     /\ cycles_begun evs = cycles
     /\ stages evs = full_cycles (length cycles))
  /\ (~ store_valid os ->
      forall cycle rest, cycles = cycle :: rest ->
        exists o e,
          o ∈ os /\ names_record e o
          /\ main_loop cross_verify_nfts nfts cycles w
             = (Ok tt, emit (Print FatalVerificationFailed)
                         (emit e (emit (Print (CycleBanner cycle)) w)))).
Proof.
  intros Hos. split.
  - intros Hvalid.
    destruct (main_loop_verified cross_verify_nfts nfts cycles w)
      as (evs & w' & Hrun & Ht & Hs & Hb & _).
    { intros w' Hh. rewrite <- Hh in Hos.
      by destruct (cross_verify_outcome nfts w' os Hos)
        as [(? & _) | (? & ? & _ & _ & _ & Hbad)]. }
    by exists evs, w'.
  - intros Hbad cycle rest ->. rewrite main_loop_cons.
    destruct (cross_verify_outcome nfts (emit (Print (CycleBanner cycle)) w) os Hos)
      as [(_ & Hvalid) | (o & e & Ho & He & -> & _)]; [done|].
    by exists o, e.
Qed.

(** ** The shape of a signature *)

Lemma byte_land x : (N.land x 0xFF < 256)%N.
Proof. change 0xFF%N with (N.ones 8). rewrite N.land_ones. by apply N.mod_lt. Qed.

Lemma hex_digit_lower d : (d < 16)%N -> is_lower_hex (SHA256.hex_digit d) = true.
Proof.
  intros Hd. unfold SHA256.hex_digit, is_lower_hex.
  destruct (N.ltb_spec d 10).
  - apply orb_true_iff. left. apply andb_true_iff. split; apply N.leb_le; lia.
  - apply orb_true_iff. right. apply andb_true_iff. split; apply N.leb_le; lia.
Qed.

Lemma compress_length h block : length h = 8 -> length (SHA256.compress h block) = 8.
Proof.
  intros Hh. unfold SHA256.compress. by rewrite length_map, length_combine, Hh.
Qed.

Lemma hash_blocks_length n ws h :
  length h = 8 -> length (SHA256.hash_blocks n ws h) = 8.
Proof.
  revert ws h. induction n as [|n IH]; intros ws h Hh; [done|].
  simpl. by apply IH, compress_length.
Qed.

Lemma digest_bytes msg :
  length (SHA256.digest msg) = 32 /\ Forall (fun b => (b < 256)%N) (SHA256.digest msg).
Proof.
  unfold SHA256.digest.
  pose proof (hash_blocks_length
                (length (SHA256.words_of_bytes (SHA256.pad msg)) / 16)
                (SHA256.words_of_bytes (SHA256.pad msg))
                SHA256.initial_hash eq_refl) as Hlen.
  destruct (SHA256.hash_blocks _ _ _) as [|w0 [|w1 [|w2 [|w3 [|w4 [|w5 [|w6 [|w7 [|]]]]]]]]];
    try discriminate Hlen.
  split; [reflexivity|].
  simpl. repeat (constructor; [apply byte_land|]). constructor.
Qed.

Lemma hex_pairs_shape bs :
  Forall (fun b => (b < 256)%N) bs ->
  let hex :=
    concat (map (fun b => [SHA256.hex_digit (N.shiftr b 4);
                           SHA256.hex_digit (N.land b 0xF)]) bs) in
  length hex = 2 * length bs /\ forallb is_lower_hex hex = true.
Proof.
  induction 1 as [|b bs Hb _ [IHlen IHhex]]; [done|]. cbv zeta in *.
  cbn [map concat app length forallb]. rewrite IHlen, IHhex. split; [lia|].
  rewrite !hex_digit_lower; [done| |].
  - change 0xF%N with (N.ones 4). rewrite N.land_ones. by apply N.mod_lt.
  - rewrite N.shiftr_div_pow2. apply N.Div0.div_lt_upper_bound. by simpl.
Qed.

Lemma hexdigest_shape msg : is_hex_signature (SHA256.hexdigest msg) = true.
Proof.
  destruct (digest_bytes msg) as [Hlen Hbytes].
  destruct (hex_pairs_shape _ Hbytes) as [Hhexlen Hhex].
  unfold is_hex_signature, SHA256.hexdigest. by rewrite Hhexlen, Hlen, Hhex.
Qed.

(** X8: whatever the metadata, the signature computed for it is a string
    of exactly 64 lower-case hexadecimal digits. *)
Theorem signature_is_hex (md : dict str str) :
  exists s, compute_signature md = Ok s /\ is_hex_signature s = true.
Proof.
  exists (signature_of md). split; [apply compute_signature_total|].
  apply hexdigest_shape.
Qed.

(** X9: the comparison of signatures is exact: after records that pass, a
    record whose stored signature is not 64 lower-case hexadecimal digits
    (truncated, padded, or in upper case) is reported as a mismatch. *)
Theorem cross_verify_rejects_malformed_signature (w : World) (pre post : list ref)
    (r : ref) (os : list NFT) (nft : NFT) :
  objects (heap w) pre = Some os ->
  store_valid os ->
  heap w !! r = Some nft ->
  is_hex_signature (signature nft) = false ->
  cross_verify_nfts (pre ++ r :: post) w
  = (Ok false, emit (Print (MismatchedSignature (token_id nft))) w).
Proof.
  intros Hos [Hok Hnd] Hr Hshape.
  rewrite (cross_verify_clean_prefix _ _ _ _ Hos Hok Hnd).
  rewrite (verify_loop_cons _ _ _ _ _ Hr).
  rewrite bool_decide_eq_false_2; [done|].
  intros Hsig. rewrite <- Hsig in Hshape. unfold signature_of in Hshape.
  by rewrite hexdigest_shape in Hshape.
Qed.

(** ** Characters outside ASCII *)

Lemma forall_bits_spec k p :
  forall_bits k 0 p = true -> forall n, (n < 2 ^ N.of_nat k)%N -> p n = true.
Proof.
  assert (forall acc, forall_bits k acc p = true ->
            forall n, (n < 2 ^ N.of_nat k)%N -> p (acc * 2 ^ N.of_nat k + n)%N = true)
    as Hgen.
  { induction k as [|k IH]; intros acc Hall n Hn.
    - change (2 ^ N.of_nat 0)%N with 1%N in *. cbn [forall_bits] in Hall.
      assert (n = 0%N) as -> by lia.
      by replace (acc * 1 + 0)%N with acc by lia.
    - cbn [forall_bits] in Hall. apply andb_prop in Hall as [H0 H1].
      rewrite Nat2N.inj_succ, N.pow_succ_r' in *.
      destruct (N.lt_ge_cases n (2 ^ N.of_nat k)) as [Hlow|Hhigh].
      + replace (acc * (2 * 2 ^ N.of_nat k) + n)%N
          with (2 * acc * 2 ^ N.of_nat k + n)%N by lia.
        by apply IH.
      + replace (acc * (2 * 2 ^ N.of_nat k) + n)%N
          with ((2 * acc + 1) * 2 ^ N.of_nat k + (n - 2 ^ N.of_nat k))%N by lia.
        apply IH; [done|lia]. }
  intros Hall n Hn. specialize (Hgen 0%N Hall n Hn). by rewrite N.mul_0_l in Hgen.
Qed.

Lemma encode_char_None c : UTF8.encode_char c = None <-> is_surrogate c = true.
Proof.
  unfold UTF8.encode_char, is_surrogate.
  destruct (N.ltb_spec c 0x80); [|destruct (N.ltb_spec c 0x800)].
  - split; [done|]. intros [?%N.leb_le _]%andb_prop. lia.
  - split; [done|]. intros [?%N.leb_le _]%andb_prop. lia.
  - destruct ((0xD800 <=? c)%N && (c <=? 0xDFFF)%N); [done|].
    by destruct (c <? 0x10000)%N.
Qed.

Lemma encode_raises_iff s :
  UTF8.encode s = Raise UnicodeEncodeError <-> existsb is_surrogate s = true.
Proof.
  induction s as [|c s IH]; simpl; [done|].
  destruct (UTF8.encode_char c) as [b|] eqn:Hc.
  - assert (is_surrogate c = false) as ->.
    { destruct (is_surrogate c) eqn:E; [|done].
      apply encode_char_None in E. congruence. }
    simpl. rewrite <- IH. by destruct (UTF8.encode s) as [|[]].
  - apply encode_char_None in Hc as ->. done.
Qed.

(** X10: [str.encode] raises [UnicodeEncodeError] exactly on the strings
    that hold a surrogate.  The JSON text of a metadata mapping never holds
    one, whatever the keys and values are, so computing a signature never
    raises, not even for metadata that could not itself be encoded. *)
Theorem signature_never_raises (md : dict str str) :
  (forall s, UTF8.encode s = Raise UnicodeEncodeError
             <-> existsb is_surrogate s = true)
  /\ existsb is_surrogate (JSON.dumps_sorted md) = false
  /\ exists sig, compute_signature md = Ok sig.
Proof.
  split; [apply encode_raises_iff|]. split.
  - pose proof (dumps_sorted_ascii md) as Hascii.
    induction Hascii as [|c s Hc _ IH]; [done|]. simpl. rewrite IH.
    unfold is_surrogate. destruct (N.leb_spec 0xD800 c); [lia|done].
  - eexists. apply compute_signature_total.
Qed.

Lemma surrogate_escapes x :
  (x < 2 ^ 10)%N ->
  JSON.escape_char (N.lor 0xD800 x) = JSON.u_escape (N.lor 0xD800 x)
  /\ JSON.escape_char (N.lor 0xDC00 x) = JSON.u_escape (N.lor 0xDC00 x).
Proof.
  intros Hx.
  pose (p := fun x =>
    bool_decide (JSON.escape_char (N.lor 0xD800 x) = JSON.u_escape (N.lor 0xD800 x))
    && bool_decide (JSON.escape_char (N.lor 0xDC00 x) = JSON.u_escape (N.lor 0xDC00 x))).
  assert (p x = true) as Hp.
  { apply (forall_bits_spec 10); [|done]. vm_compute. reflexivity. }
  apply andb_prop in Hp as [H1%bool_decide_eq_true H2%bool_decide_eq_true].
  by split.
Qed.

(** A code point above the basic plane is written exactly as its two
    surrogates would be. *)
Lemma escape_char_astral c :
  (0x10000 <= c)%N ->
  JSON.escape_char c = concat (map JSON.escape_char (surrogate_pair c)).
Proof.
  intros Hc. unfold surrogate_pair. cbn [map concat]. rewrite app_nil_r.
  assert (forall y, (N.land y 0x3FF < 2 ^ 10)%N) as Hland.
  { intros y. change 0x3FF%N with (N.ones 10). rewrite N.land_ones.
    by apply N.mod_lt. }
  rewrite (proj1 (surrogate_escapes _ (Hland _))).
  rewrite (proj2 (surrogate_escapes _ (Hland _))).
  unfold JSON.escape_char at 1, JSON.quote, JSON.backslash.
  repeat match goal with
         | |- context [(c =? ?k)%N] =>
             replace (c =? k)%N with false by (symmetry; apply N.eqb_neq; lia)
         end.
  replace (c <=? 126)%N with false by (symmetry; apply N.leb_gt; lia).
  replace (c <? 65536)%N with false by (symmetry; apply N.ltb_ge; lia).
  by rewrite andb_false_r.
Qed.

Lemma encode_str_split s : JSON.encode_str (split_astral s) = JSON.encode_str s.
Proof.
  unfold JSON.encode_str. do 2 f_equal.
  induction s as [|c s IH]; [done|].
  unfold split_astral in *. cbn [map concat].
  rewrite map_app, concat_app, IH. f_equal.
  destruct (N.leb_spec 0x10000 c).
  - by rewrite escape_char_astral.
  - simpl. by rewrite app_nil_r.
Qed.

Lemma item_lt_keys (g : str -> str) (x y : str * str) :
  x.1 <> y.1 -> item_lt (x.1, g x.2) (y.1, g y.2) = item_lt x y.
Proof.
  intros Hne. unfold item_lt, lt_of, item_compare, pair_compare. simpl.
  destruct (str_compare x.1 y.1) eqn:E; try done.
  by apply (cmp_eq (cmp:=str_compare)) in E.
Qed.

Lemma insert_values (g : str -> str) (x : str * str) (l : dict str str) :
  x.1 ∉ map fst l ->
  insert item_lt (x.1, g x.2) (map (fun kv => (kv.1, g kv.2)) l)
  = map (fun kv => (kv.1, g kv.2)) (insert item_lt x l).
Proof.
  induction l as [|y l IH]; [done|]. simpl map.
  intros [Hxy Hx]%not_elem_of_cons. cbn [insert].
  rewrite item_lt_keys by done.
  destruct (item_lt y x); [|done]. simpl. by rewrite IH.
Qed.

Lemma insert_Permutation {A : Type} (lt : A -> A -> bool) x l :
  insert lt x l ≡ₚ x :: l.
Proof.
  induction l as [|y l IH]; [done|]. simpl.
  destruct (lt y x); [|done]. rewrite IH. apply Permutation_swap.
Qed.

Lemma sorted_self_Permutation {A : Type} (lt : A -> A -> bool) l :
  sorted lt l ≡ₚ l.
Proof.
  induction l as [|x l IH]; [done|]. simpl.
  by rewrite insert_Permutation, IH.
Qed.

Lemma sorted_values (g : str -> str) (l : dict str str) :
  NoDup (map fst l) ->
  sorted item_lt (map (fun kv => (kv.1, g kv.2)) l)
  = map (fun kv => (kv.1, g kv.2)) (sorted item_lt l).
Proof.
  induction l as [|x l IH]; [done|]. simpl.
  intros [Hx Hnd]%NoDup_cons. rewrite IH by done.
  apply insert_values.
  by rewrite (Permutation_map fst (sorted_self_Permutation item_lt l)).
Qed.

Lemma dumps_sorted_split md :
  NoDup (map fst md) -> JSON.dumps_sorted (split_values md) = JSON.dumps_sorted md.
Proof.
  intros Hnd. unfold JSON.dumps_sorted, split_values.
  rewrite (sorted_values split_astral) by done.
  destruct (sorted item_lt md) as [|kv items]; [done|].
  assert (forall l : dict str str,
            map JSON.encode_item (map (fun kv => (kv.1, split_astral kv.2)) l)
            = map JSON.encode_item l) as Hitems.
  { intros l. rewrite map_map. apply map_ext. intros [k v].
    unfold JSON.encode_item. simpl. by rewrite encode_str_split. }
  by rewrite <- (Hitems (kv :: items)).
Qed.

Lemma split_astral_length s :
  length s <= length (split_astral s)
  /\ ((exists c, c ∈ s /\ (0x10000 <= c)%N) -> length s < length (split_astral s)).
Proof.
  induction s as [|c s [IHle IHlt]].
  - split; [done|]. intros (c & Hc%elem_of_nil & _). done.
  - unfold split_astral in *. cbn [map concat length].
    rewrite length_app. destruct (N.leb_spec 0x10000 c) as [Hc|Hc]; simpl.
    + split; [lia|]. intros _. lia.
    + split; [lia|]. intros (c' & [->|Hc']%elem_of_cons & Hbig); [lia|].
      assert (length s < length (concat (map (fun c0 =>
                if (65536 <=? c0)%N then surrogate_pair c0 else [c0]) s)))
        by (apply IHlt; eauto).
      lia.
Qed.

(** X11: the signature cannot tell a character above the basic plane from
    its pair of surrogates.  Rewriting the values of any metadata mapping
    (with distinct keys) that way leaves the signature unchanged, so a
    record altered so still matches its old signature, although the
    metadata is a different mapping whenever a value has such a character. *)
Theorem signature_blind_to_surrogate_split (md : dict str str) :
  NoDup (map fst md) ->
  compute_signature (split_values md) = compute_signature md
  /\ (forall tid sig,
         self_consistent (mkNFT tid md sig) ->
         self_consistent (mkNFT tid (split_values md) sig))
  /\ ((exists kv c, kv ∈ md /\ c ∈ kv.2 /\ (0x10000 <= c)%N) ->
      split_values md <> md).
Proof.
  intros Hnd.
  assert (compute_signature (split_values md) = compute_signature md) as Hsig.
  { unfold compute_signature. by rewrite dumps_sorted_split. }
  split; [done|]. split.
  - intros tid sig. unfold self_consistent. simpl. by rewrite Hsig.
  - intros (kv & c & Hkv & Hc & Hbig) Heq.
    assert (split_astral kv.2 = kv.2) as Hsame.
    { clear -Hkv Heq. unfold split_values in Heq.
      induction md as [|kv' md IH]; [by apply elem_of_nil in Hkv|].
      simpl in Heq. injection Heq as Hhead Htail.
      apply elem_of_cons in Hkv as [->|Hkv]; [|by apply IH].
      destruct kv' as [k v]. simpl in *. congruence. }
    destruct (split_astral_length kv.2) as [_ Hlt].
    specialize (Hlt (ex_intro _ c (conj Hc Hbig))). rewrite Hsame in Hlt. lia.
Qed.

(** ** What a cycle does, in full *)

Lemma stages_body_exact cycle w :
  stages_body cycle w = (Ok tt, after_cycle cycle w).
Proof.
  unfold stages_body, after_cycle, cycle_events.
  set (readings := [(py "temperature", sensors w (drawn w));
                    (py "humidity", sensors w (S (drawn w)));
                    (py "pressure", sensors w (S (S (drawn w))))]).
  unfold bind at 1.
  change (update w)
    with (Ok readings,
          emit (Print (SensorReadings readings))
            (mkWorld (heap w) (trace w) (sensors w) (S (S (S (drawn w))))
                     (clock w) (ticks w))).
  unfold bind at 1. rewrite think_nonempty by done. cbv zeta.
  set (avg := arithmetic_mean (map snd readings)).
  unfold bind at 1, act.
  destruct ((24.0 <=? avg) && (avg <=? 26.0))%float.
  - rewrite bool_decide_eq_true_2 by done.
    unfold bind, print, breath, bind, strftime, print, sleep, emit. simpl.
    rewrite <- !app_assoc. simpl.
    by rewrite !Nat.add_succ_r, !Nat.add_0_r.
  - rewrite bool_decide_eq_false_2 by done.
    unfold bind, print, breath, bind, strftime, print, sleep, emit. simpl.
    rewrite <- !app_assoc. simpl.
    by rewrite !Nat.add_succ_r, !Nat.add_0_r.
Qed.

(** X12: one cycle whose verification passes silently prints the banner,
    the readings drawn from the random source, their mean with its label,
    the action line that goes with that label and carries the same mean, and
    the heartbeat with the cycle number, then sleeps 0.5 s; it draws three
    random values, reads the clock once and leaves the records alone. *)
Theorem main_loop_one_cycle (verifier : list ref -> M bool) (nfts : list ref)
    (cycle : Z) (w : World) :
  verifier nfts (emit (Print (CycleBanner cycle)) w)
  = (Ok true, emit (Print (CycleBanner cycle)) w) ->
  main_loop verifier nfts [cycle] w
  = (Ok tt,
     mkWorld (heap w)
             (trace w ++ Print (CycleBanner cycle) :: cycle_events cycle w)
             (sensors w) (drawn w + 3) (clock w) (ticks w + 1)).
Proof.
  intros Hv. rewrite main_loop_cons, Hv, stages_body_exact.
  unfold after_cycle, emit. simpl. by rewrite <- app_assoc.
Qed.

Lemma pauses_app evs1 evs2 : pauses (evs1 ++ evs2) = pauses evs1 ++ pauses evs2.
Proof. apply omap_app. Qed.

Lemma pauses_cycle_events cycle w : pauses (cycle_events cycle w) = [0.5%float].
Proof. unfold cycle_events. cbv zeta. by destruct (_ && _). Qed.

Lemma last_cycle_events cycle w : last (cycle_events cycle w) = Some (Sleep 0.5).
Proof. reflexivity. Qed.

Lemma main_loop_passing_run verifier nfts cycles w :
  (forall w', verifier nfts w' = (Ok true, w')) ->
  exists evs w',
    main_loop verifier nfts cycles w = (Ok tt, w')
    /\ trace w' = trace w ++ evs
    /\ drawn w' = drawn w + 3 * length cycles
    /\ ticks w' = ticks w + length cycles
    /\ pauses evs = replicate (length cycles) 0.5%float
    /\ (cycles = [] -> evs = [])
    /\ (cycles <> [] -> last evs = Some (Sleep 0.5)).
Proof.
  intros Hv. revert w. induction cycles as [|c cycles IH]; intros w.
  - exists [], w. rewrite app_nil_r. simpl. repeat split; try lia; done.
  - rewrite main_loop_cons, Hv, stages_body_exact.
    destruct (IH (after_cycle c (emit (Print (CycleBanner c)) w)))
      as (evs & w' & -> & Ht & Hd & Hk & Hp & Hnil & Hlast).
    exists (Print (CycleBanner c)
              :: cycle_events c (emit (Print (CycleBanner c)) w) ++ evs), w'.
    split; [done|]. split; [|split; [|split; [|split; [|split]]]].
    + rewrite Ht. simpl. by rewrite <- !app_assoc.
    + rewrite Hd. simpl. lia.
    + rewrite Hk. simpl. lia.
    + change (pauses (Print (CycleBanner c) :: ?l)) with (pauses l).
      by rewrite pauses_app, pauses_cycle_events, Hp.
    + done.
    + intros _. rewrite app_comm_cons, last_app.
      destruct cycles as [|c' cycles].
      * by rewrite (Hnil eq_refl).
      * by rewrite Hlast.
Qed.

(** X13: a run of [n] cycles whose verifications all pass draws [3 n]
    random values, reads the clock [n] times and sleeps [n] times for
    0.5 s; the last thing it does is the pause after the final heartbeat. *)
Theorem main_loop_resources (verifier : list ref -> M bool) (nfts : list ref)
    (cycles : list Z) (w : World) :
  (forall w', verifier nfts w' = (Ok true, w')) ->
  exists evs w',
    main_loop verifier nfts cycles w = (Ok tt, w')
    /\ trace w' = trace w ++ evs
    /\ drawn w' = drawn w + 3 * length cycles
    /\ ticks w' = ticks w + length cycles
    /\ pauses evs = replicate (length cycles) 0.5%float
    /\ (cycles <> [] -> last evs = Some (Sleep 0.5)).
Proof.
  intros Hv.
  destruct (main_loop_passing_run verifier nfts cycles w Hv)
    as (evs & w' & Hrun & Ht & Hd & Hk & Hp & _ & Hlast).
  by exists evs, w'.
Qed.

(** ** A reading that is not a number *)

Lemma is_nan_spec x : is_nan x = true <-> Prim2SF x = S754_nan.
Proof.
  unfold is_nan. rewrite FloatAxioms.eqb_spec. unfold SFeqb.
  destruct (Prim2SF x) as [s|s| |s m e]; simpl.
  - split; discriminate.
  - destruct s; split; discriminate.
  - done.
  - destruct s; rewrite Z.compare_refl, Pos.compare_cont_refl; split; discriminate.
Qed.

Lemma add_nan_l x y : is_nan x = true -> is_nan (x + y) = true.
Proof.
  rewrite !is_nan_spec, add_spec. intros ->. reflexivity.
Qed.

Lemma add_nan_r x y : is_nan y = true -> is_nan (x + y) = true.
Proof.
  rewrite !is_nan_spec, add_spec. intros ->. by destruct (Prim2SF x).
Qed.

Lemma div_nan_l x y : is_nan x = true -> is_nan (x / y) = true.
Proof.
  rewrite !is_nan_spec, div_spec. intros ->. reflexivity.
Qed.

Lemma leb_nan_r x y : is_nan y = true -> (x <=? y)%float = false.
Proof.
  rewrite is_nan_spec, leb_spec. intros ->. by destruct (Prim2SF x).
Qed.

Lemma fold_add_nan_acc values acc :
  is_nan acc = true -> is_nan (fold_left PrimFloat.add values acc) = true.
Proof.
  revert acc. induction values as [|v values IH]; intros acc Hacc; [done|].
  simpl. by apply IH, add_nan_l.
Qed.

Lemma fold_add_nan values acc v :
  v ∈ values -> is_nan v = true ->
  is_nan (fold_left PrimFloat.add values acc) = true.
Proof.
  revert acc. induction values as [|v' values IH]; intros acc Hin Hv.
  - by apply elem_of_nil in Hin.
  - simpl. apply elem_of_cons in Hin as [<-|Hin].
    + by apply fold_add_nan_acc, add_nan_r.
    + by apply IH.
Qed.

(** X14: a reading with a channel that is not a number (NaN) never makes
    [think] fail: the mean is NaN, the label is [anomaly], and [act] on that
    result prints the warning line. *)
Theorem think_nan_is_anomaly (readings : dict str float) (w : World) :
  (exists kv, kv ∈ readings /\ is_nan kv.2 = true) ->
  exists avg,
    is_nan avg = true
    /\ think readings w
       = (Ok (py "anomaly", avg), emit (Print (AverageReading avg (py "anomaly"))) w)
    /\ forall w', act (py "anomaly") avg w'
                  = (Ok tt, emit (Print (OutsideNormalRange avg)) w').
Proof.
  intros (kv & Hkv & Hnan).
  assert (readings <> []) as Hne by (intros ->; by apply elem_of_nil in Hkv).
  exists (arithmetic_mean (map snd readings)).
  assert (is_nan (arithmetic_mean (map snd readings)) = true) as Havg.
  { unfold arithmetic_mean. apply div_nan_l, (fold_add_nan _ _ kv.2); [|done].
    apply list_elem_of_In, in_map, list_elem_of_In, Hkv. }
  split; [done|]. split.
  - rewrite think_nonempty by done. cbv zeta.
    by rewrite (leb_nan_r _ _ Havg).
  - intros w'. unfold act. by rewrite bool_decide_eq_false_2.
Qed.

(** ** Building records, then verifying them *)

Lemma build_alloc specs w :
  build specs w
  = (Ok (seq (length (heap w)) (length specs)),
     with_heap (heap w ++ map new_object specs) w).
Proof.
  revert w. induction specs as [|spec specs IH]; intros w.
  - simpl. unfold ret, with_heap. rewrite app_nil_r. by destruct w.
  - cbn [build]. unfold bind at 1. rewrite NFT_new_alloc.
    unfold bind at 1. rewrite IH. unfold ret, with_heap. simpl.
    rewrite length_app, <- app_assoc. simpl. by rewrite Nat.add_1_r.
Qed.

Lemma new_objects_consistent specs : Forall self_consistent (map new_object specs).
Proof.
  induction specs; constructor; [|done]. by apply self_consistent_signature.
Qed.

(** Among self-consistent records a rejection is always a duplicate. *)
Lemma verify_loop_consistent_failure refs seen w os w' :
  objects (heap w) refs = Some os ->
  Forall self_consistent os ->
  verify_loop refs seen w = (Ok false, w') ->
  exists o, o ∈ os /\ w' = emit (Print (DuplicateSignature (token_id o))) w.
Proof.
  revert seen os. induction refs as [|r refs IH]; intros seen os.
  - intros [= <-] _ [=].
  - intros (o & os' & Hr & Hos & ->)%objects_cons_inv [Ho Hok]%Forall_cons.
    rewrite (verify_loop_cons _ _ _ _ _ Hr).
    apply self_consistent_signature in Ho. rewrite <- Ho.
    rewrite bool_decide_eq_true_2 by done. simpl negb. cbv iota.
    case_bool_decide.
    + intros [= <-]. exists o. split; [left|done].
    + intros Hrun. destruct (IH _ _ Hos Hok Hrun) as (o' & Ho' & ->).
      exists o'. split; [by right|done].
Qed.

(** X15: records that were just built can only fail verification by
    duplication, never by mismatch: verifying a freshly built list answers
    [True] exactly when the digests of the metadata are pairwise distinct,
    and otherwise prints a duplicate line. *)
Theorem build_then_verify (specs : list (str * dict str str)) (w : World) :
  exists refs w',
    build specs w = (Ok refs, w')
    /\ ((cross_verify_nfts refs w').1 = Ok true
        <-> NoDup (map (fun spec => signature_of spec.2) specs))
    /\ ((cross_verify_nfts refs w').1 = Ok false ->
        exists spec,
          spec ∈ specs
          /\ (cross_verify_nfts refs w').2
             = emit (Print (DuplicateSignature spec.1)) w').
Proof.
  eexists _, _. split; [apply build_alloc|].
  set (w' := with_heap _ w). set (refs := seq _ _).
  assert (objects (heap w') refs = Some (map new_object specs)) as Hos.
  { subst w' refs. simpl. rewrite <- (length_map new_object specs).
    apply objects_appended. }
  pose proof (new_objects_consistent specs) as Hok.
  assert (map signature (map new_object specs)
          = map (fun spec => signature_of spec.2) specs) as Hsigs
    by (by rewrite map_map).
  split.
  - rewrite <- Hsigs.
    destruct (cross_verify_outcome refs w' _ Hos)
      as [(-> & _ & Hnd) | (? & ? & _ & _ & -> & Hbad)]; simpl; [done|].
    split; [done|]. intros Hnd. by destruct Hbad.
  - intros Hfalse.
    destruct (cross_verify_nfts refs w') as [res w''] eqn:Hrun.
    simpl in Hfalse. subst res.
    destruct (verify_loop_consistent_failure _ _ _ _ _ Hos Hok Hrun)
      as (o & [spec [-> Hspec]]%list_elem_of_fmap & ->).
    by exists spec.
Qed.

(** ** The further statements at sample inputs *)

Ltac valid_by_computation :=
  split; [repeat constructor; by_computation | distinct_by_computation].


Lemma cross_verify_prints_one_line_witness :
  exists verdict,
    (cross_verify_nfts [0; 1; 2; 3] cloned_world).1 = Ok verdict
    /\ if verdict then (cross_verify_nfts [0; 1; 2; 3] cloned_world).2 = cloned_world
       else exists o e,
              o ∈ [object1; object2; clone1; object3] /\ names_record e o
              /\ (cross_verify_nfts [0; 1; 2; 3] cloned_world).2 = emit e cloned_world.
Proof.
  refine (cross_verify_prints_one_line cloned_world [0; 1; 2; 3]
            [object1; object2; clone1; object3] _).
  by_computation.
Defined.

(** Forwards the clone [nft4] is named, backwards [nft1]: the verdict is
    the same. *)
Lemma cross_verify_verdict_order_independent_witness :
  (cross_verify_nfts [0; 1; 2; 3] cloned_world).1
  = (cross_verify_nfts [3; 2; 1; 0] cloned_world).1.
Proof.
  refine (cross_verify_verdict_order_independent cloned_world
            [0; 1; 2; 3] [3; 2; 1; 0] [object1; object2; clone1; object3] _ _).
  - apply (Permutation_rev [0; 1; 2; 3]).
  - by_computation.
Defined.

Lemma cross_verify_duplicate_any_key_order_witness :
  cross_verify_nfts [0; 1; 2; 3] reordered_world
  = (Ok false, emit (Print (DuplicateSignature (py "nft5"))) reordered_world).
Proof.
  refine (cross_verify_duplicate_any_key_order reordered_world [] [1] [3] 0 2
            [] [object2] object1 reordered_clone1 _ _ _ _ _ _ _).
  - by_computation.
  - by_computation.
  - by_computation.
  - by_computation.
  - symmetry. apply (Permutation_cons_append (tail metadata1) (py "owner", py "alice")).
  - by_computation.
  - valid_by_computation.
Defined.

Lemma cross_verify_ignores_token_id_witness :
  (cross_verify_nfts [0; 1; 2] (world_of mock_objects)).1
  = (cross_verify_nfts [0; 1; 2] (world_of same_id_objects)).1.
Proof.
  refine (cross_verify_ignores_token_id (world_of mock_objects)
            (world_of same_id_objects) [0; 1; 2] [0; 1; 2]
            mock_objects same_id_objects _ _ _ _).
  - by_computation.
  - by_computation.
  - reflexivity.
  - reflexivity.
Defined.

Lemma cross_verify_rejects_repeated_reference_witness :
  (cross_verify_nfts [0; 1; 0] (world_of mock_objects)).1 = Ok false.
Proof.
  refine (cross_verify_rejects_repeated_reference (world_of mock_objects)
            [] [1] [] 0 [object1; object2; object1] _).
  by_computation.
Defined.

Lemma main_loop_all_or_nothing_witness :
  exists o e,
    o ∈ [object1; tampered2; object3] /\ names_record e o
    /\ main_loop cross_verify_nfts [0; 1; 2] (range 1 (MAX_CYCLES + 1)) tampered_world
       = (Ok tt, emit (Print FatalVerificationFailed)
                   (emit e (emit (Print (CycleBanner 1)) tampered_world))).
Proof.
  refine (proj2 (main_loop_all_or_nothing tampered_world [0; 1; 2]
                   (range 1 (MAX_CYCLES + 1)) [object1; tampered2; object3] _)
            _ 1%Z [2; 3; 4; 5]%Z _).
  - by_computation.
  - intros [Hok _]. apply Forall_cons in Hok as [_ Hok].
    apply Forall_cons in Hok as [Hbad _]. vm_compute in Hbad. discriminate Hbad.
  - reflexivity.
Defined.

Lemma cross_verify_rejects_malformed_signature_witness :
  cross_verify_nfts [0; 1; 2] shouting_world
  = (Ok false, emit (Print (MismatchedSignature (py "nft1"))) shouting_world).
Proof.
  refine (cross_verify_rejects_malformed_signature shouting_world [0] [2] 1
            [object2] shouting1 _ _ _ _).
  - by_computation.
  - valid_by_computation.
  - by_computation.
  - by_computation.
Defined.

Lemma signature_blind_to_surrogate_split_witness :
  compute_signature (split_values emoji_metadata) = compute_signature emoji_metadata
  /\ split_values emoji_metadata <> emoji_metadata.
Proof.
  destruct (signature_blind_to_surrogate_split emoji_metadata) as (Hsig & _ & Hne).
  - distinct_by_computation.
  - split; [exact Hsig|]. apply Hne.
    exists (py "mood", [0x1F600%N]), 0x1F600%N.
    split; [|split].
    + apply list_elem_of_In. right. left. reflexivity.
    + apply list_elem_of_In. left. reflexivity.
    + vm_compute. discriminate.
Defined.

Lemma main_loop_one_cycle_witness :
  main_loop always_succeeds [] [1%Z] (world_of [])
  = (Ok tt,
     mkWorld [] (Print (CycleBanner 1) :: cycle_events 1 (world_of []))
             (sensors (world_of [])) 3 (clock (world_of [])) 1).
Proof.
  refine (main_loop_one_cycle always_succeeds [] 1 (world_of []) _).
  reflexivity.
Defined.

Lemma main_loop_resources_witness :
  exists evs w',
    main_loop always_succeeds [] [1; 2]%Z (world_of []) = (Ok tt, w')
    /\ trace w' = evs
    /\ drawn w' = 6
    /\ ticks w' = 2
    /\ pauses evs = [0.5; 0.5]%float
    /\ last evs = Some (Sleep 0.5).
Proof.
  destruct (main_loop_resources always_succeeds [] [1; 2]%Z (world_of []))
    as (evs & w' & Hrun & Ht & Hd & Hk & Hp & Hlast).
  - reflexivity.
  - exists evs, w'. repeat split; [exact Hrun|exact Ht|exact Hd|exact Hk|exact Hp|].
    apply Hlast. discriminate.
Defined.

Lemma think_nan_is_anomaly_witness :
  exists avg,
    is_nan avg = true
    /\ think faulty_reading (world_of [])
       = (Ok (py "anomaly", avg),
          emit (Print (AverageReading avg (py "anomaly"))) (world_of []))
    /\ forall w', act (py "anomaly") avg w'
                  = (Ok tt, emit (Print (OutsideNormalRange avg)) w').
Proof.
  refine (think_nan_is_anomaly faulty_reading (world_of []) _).
  exists (py "humidity", PrimFloat.nan). split.
  - apply list_elem_of_In. right. left. reflexivity.
  - reflexivity.
Defined.

(** ** The canonical text determines the metadata *)

Lemma parse_hex4_digits n r :
  (n < 2 ^ 16)%N ->
  parse_hex4 (map (fun i => SHA256.hex_digit (N.land (N.shiftr n (4 * i)) 0xF))
                  [3; 2; 1; 0]%N ++ r)
  = Some (n, r).
Proof.
  intros Hn.
  pose (p := fun n =>
    bool_decide
      (parse_hex4 (map (fun i => SHA256.hex_digit (N.land (N.shiftr n (4 * i)) 0xF))
                       [3; 2; 1; 0]%N)
       = Some (n, []))).
  assert (p n = true) as Hp.
  { apply (forall_bits_spec 16); [|done]. vm_compute. reflexivity. }
  apply bool_decide_eq_true in Hp. cbn [map app] in *. unfold parse_hex4 in *.
  repeat match goal with
         | H : context [hex_value ?d] |- _ => destruct (hex_value d); try discriminate H
         end.
  by injection Hp as ->.
Qed.

Lemma unescape_u n r :
  (n < 2 ^ 16)%N ->
  unescape (JSON.u_escape n ++ r)
  = if ((0xD800 <=? n) && (n <=? 0xDBFF))%N then
      match r with
      | b :: u :: rest3 =>
          if ((b =? 92) && (u =? 117))%N then
            match parse_hex4 rest3 with
            | Some (m, rest4) =>
                Some ((0x10000 + (n - 0xD800) * 1024 + (m - 0xDC00))%N, rest4)
            | None => None
            end
          else None
      | _ => None
      end
    else Some (n, r).
Proof.
  intros Hn. unfold JSON.u_escape, JSON.backslash.
  rewrite <- app_assoc. cbn [app]. unfold unescape.
  change (92 =? 92)%N with true. change (117 =? 117)%N with true. cbv iota.
  by rewrite parse_hex4_digits.
Qed.

Lemma surrogate_sums x :
  (x < 2 ^ 10)%N ->
  N.lor 0xD800 x = (0xD800 + x)%N /\ N.lor 0xDC00 x = (0xDC00 + x)%N.
Proof.
  intros Hx.
  pose (p := fun x => ((N.lor 0xD800 x =? 0xD800 + x) && (N.lor 0xDC00 x =? 0xDC00 + x))%N).
  assert (p x = true) as Hp.
  { apply (forall_bits_spec 10); [|done]. vm_compute. reflexivity. }
  apply andb_prop in Hp as [H1%N.eqb_eq H2%N.eqb_eq]. by split.
Qed.

(** Reading back what [escape_char] wrote gives the character again. *)
Lemma unescape_escape c r :
  scalar c = true -> unescape (JSON.escape_char c ++ r) = Some (c, r).
Proof.
  unfold scalar, is_surrogate.
  intros [Hmax%N.ltb_lt Hsur%negb_true_iff]%andb_prop.
  unfold JSON.escape_char, JSON.quote, JSON.backslash.
  repeat match goal with
         | |- context [if (c =? ?k)%N then _ else _] =>
             destruct (N.eqb_spec c k) as [->|?]; [reflexivity|]
         end.
  destruct ((32 <=? c)%N && (c <=? 126)%N) eqn:Hprint.
  { cbn [app]. unfold unescape.
    by replace (c =? 92)%N with false by (symmetry; by apply N.eqb_neq). }
  destruct (N.ltb_spec c 0x10000) as [Hbmp|Hastral].
  - rewrite unescape_u by (simpl; lia).
    destruct (N.leb_spec 0xD800 c), (N.leb_spec c 0xDBFF); simpl in *; try done.
    destruct (N.leb_spec c 0xDFFF); [done|lia].
  - set (v := (c - 0x10000)%N).
    assert (N.land (N.shiftr v 10) 0x3FF = v / 1024 /\ N.land v 0x3FF = v mod 1024)%N
      as [Hhi Hlo].
    { change 0x3FF%N with (N.ones 10). rewrite !N.land_ones, N.shiftr_div_pow2.
      split; [|done]. apply N.mod_small.
      apply N.Div0.div_lt_upper_bound. subst v. simpl. lia. }
    assert (v mod 1024 < 1024)%N as Hlo_lt by (by apply N.mod_lt).
    assert (v / 1024 < 1024)%N as Hhi_lt
      by (apply N.Div0.div_lt_upper_bound; subst v; lia).
    rewrite Hhi, Hlo.
    rewrite (proj1 (surrogate_sums (v / 1024) Hhi_lt)).
    rewrite (proj2 (surrogate_sums (v mod 1024) Hlo_lt)).
    rewrite <- app_assoc, unescape_u by (simpl; lia).
    replace ((55296 <=? 55296 + v / 1024) && (55296 + v / 1024 <=? 56319))%N
      with true
      by (symmetry; apply andb_true_iff; split; apply N.leb_le; lia).
    unfold JSON.u_escape, JSON.backslash at 1. rewrite <- app_assoc. cbn [app].
    change ((92 =? 92) && (117 =? 117))%N with true. cbv iota.
    rewrite parse_hex4_digits by (simpl; lia).
    f_equal. f_equal. pose proof (N.div_mod v 1024). subst v. lia.
Qed.

(** An escaped character never starts with a bare quote. *)
Lemma escape_char_head c :
  exists x rest, JSON.escape_char c = x :: rest /\ x <> JSON.quote.
Proof.
  unfold JSON.escape_char, JSON.u_escape, JSON.quote, JSON.backslash.
  repeat match goal with
         | |- context [if (c =? ?k)%N then _ else _] =>
             destruct (N.eqb_spec c k) as [->|?]; [by eexists _, _|]
         end.
  destruct ((32 <=? c)%N && (c <=? 126)%N); [by eexists _, _|].
  destruct (c <? 65536)%N; by eexists _, _.
Qed.

Lemma escaped_chars_inj s t r r' :
  well_formed s = true -> well_formed t = true ->
  concat (map JSON.escape_char s) ++ JSON.quote :: r
  = concat (map JSON.escape_char t) ++ JSON.quote :: r' ->
  s = t /\ r = r'.
Proof.
  revert t. induction s as [|c s IH]; intros [|c' t]; cbn [map concat forallb well_formed].
  - intros _ _ [= ->]. done.
  - intros _ _ Heq. exfalso.
    destruct (escape_char_head c') as (x & rest & Hc' & Hx).
    rewrite Hc' in Heq. cbn [app] in Heq. congruence.
  - intros _ _ Heq. exfalso.
    destruct (escape_char_head c) as (x & rest & Hc & Hx).
    rewrite Hc in Heq. cbn [app] in Heq. congruence.
  - intros [Hc Hs]%andb_prop [Hc' Ht]%andb_prop Heq.
    rewrite <- !app_assoc in Heq.
    apply (f_equal unescape) in Heq.
    rewrite !unescape_escape in Heq by done.
    injection Heq as -> Heq.
    destruct (IH t Hs Ht Heq) as [-> ->]. done.
Qed.

Lemma encode_str_inj s t r r' :
  well_formed s = true -> well_formed t = true ->
  JSON.encode_str s ++ r = JSON.encode_str t ++ r' -> s = t /\ r = r'.
Proof.
  intros Hs Ht. unfold JSON.encode_str.
  rewrite <- !app_assoc. cbn [app]. intros [= Heq].
  by apply escaped_chars_inj.
Qed.

Lemma py_colon : py ": " = [58; 32]%N.
Proof. reflexivity. Qed.

Lemma py_comma : py ", " = [44; 32]%N.
Proof. reflexivity. Qed.

Lemma encode_item_inj kv kv' r r' :
  well_formed kv.1 && well_formed kv.2 = true ->
  well_formed kv'.1 && well_formed kv'.2 = true ->
  JSON.encode_item kv ++ r = JSON.encode_item kv' ++ r' -> kv = kv' /\ r = r'.
Proof.
  destruct kv as [k v], kv' as [k' v']. cbn [fst snd].
  intros [Hk Hv]%andb_prop [Hk' Hv']%andb_prop. unfold JSON.encode_item.
  cbn [fst snd]. rewrite py_colon, <- !app_assoc. intros Heq.
  apply encode_str_inj in Heq as [-> Heq]; [|done..].
  apply app_inv_head in Heq.
  apply encode_str_inj in Heq as [-> ->]; done.
Qed.

Lemma encode_item_head kv : exists rest, JSON.encode_item kv = JSON.quote :: rest.
Proof. destruct kv. unfold JSON.encode_item, JSON.encode_str. by eexists. Qed.

Lemma joined_items_inj items items' r r' :
  well_formed_items items = true -> well_formed_items items' = true ->
  join (py ", ") (map JSON.encode_item items) ++ 125%N :: r
  = join (py ", ") (map JSON.encode_item items') ++ 125%N :: r' ->
  items = items'.
Proof.
  rewrite py_comma.
  revert items'. induction items as [|kv items IH]; intros [|kv' items'].
  - done.
  - intros _ _ Heq. exfalso. cbn [map join] in Heq.
    destruct (encode_item_head kv') as (rest & Hkv'). rewrite Hkv' in Heq.
    destruct (map JSON.encode_item items'); cbn [app] in Heq; discriminate Heq.
  - intros _ _ Heq. exfalso. cbn [map join] in Heq.
    destruct (encode_item_head kv) as (rest & Hkv). rewrite Hkv in Heq.
    destruct (map JSON.encode_item items); cbn [app] in Heq; discriminate Heq.
  - cbn [well_formed_items forallb]. intros [Hkv Hitems]%andb_prop [Hkv' Hitems']%andb_prop.
    destruct items as [|kv2 items], items' as [|kv2' items']; cbn [map join].
    + intros Heq. by apply encode_item_inj in Heq as [-> _].
    + rewrite <- !app_assoc. intros Heq.
      apply encode_item_inj in Heq as [_ Heq]; [|done..]. discriminate Heq.
    + rewrite <- !app_assoc. intros Heq.
      apply encode_item_inj in Heq as [_ Heq]; [|done..]. discriminate Heq.
    + rewrite <- !app_assoc. intros Heq.
      apply encode_item_inj in Heq as [-> Heq]; [|done..].
      apply app_inv_head in Heq.
      f_equal. by apply (IH (kv2' :: items')).
Qed.

Lemma well_formed_items_Permutation md md' :
  md ≡ₚ md' -> well_formed_items md = true -> well_formed_items md' = true.
Proof.
  unfold well_formed_items. rewrite !forallb_forall.
  intros Hperm Hall kv Hin. apply Hall.
  by apply (Permutation_in _ (Permutation_sym Hperm)).
Qed.

Lemma joined_items_head sep kv items :
  exists rest, join sep (map JSON.encode_item (kv :: items)) = JSON.quote :: rest.
Proof.
  destruct (encode_item_head kv) as (rest & Hkv). cbn [map join]. rewrite Hkv.
  destruct (map JSON.encode_item items); by eexists.
Qed.

(** X16: for metadata whose keys and values are well-formed text (no
    surrogates), the text that is hashed determines the items: two mappings
    have the same canonical JSON text exactly when they hold the same items,
    in whatever order. *)
Theorem dumps_sorted_determines_items (md1 md2 : dict str str) :
  well_formed_items md1 = true ->
  well_formed_items md2 = true ->
  JSON.dumps_sorted md1 = JSON.dumps_sorted md2 <-> md1 ≡ₚ md2.
Proof.
  intros Hwf1 Hwf2. split; [|apply dumps_sorted_Permutation].
  pose proof (sorted_self_Permutation item_lt md1) as Hp1.
  pose proof (sorted_self_Permutation item_lt md2) as Hp2.
  apply (well_formed_items_Permutation _ _ (Permutation_sym Hp1)) in Hwf1.
  apply (well_formed_items_Permutation _ _ (Permutation_sym Hp2)) in Hwf2.
  unfold JSON.dumps_sorted. intros Heq.
  assert (sorted item_lt md1 = sorted item_lt md2) as Hsorted.
  { destruct (sorted item_lt md1) as [|kv1 items1],
             (sorted item_lt md2) as [|kv2 items2].
    - done.
    - exfalso. change (py "{}") with (py "{" ++ [125%N]) in Heq.
      apply app_inv_head in Heq.
      destruct (joined_items_head (py ", ") kv2 items2) as (rest & Hhead).
      rewrite Hhead in Heq. discriminate Heq.
    - exfalso. change (py "{}") with (py "{" ++ [125%N]) in Heq.
      apply app_inv_head in Heq.
      destruct (joined_items_head (py ", ") kv1 items1) as (rest & Hhead).
      rewrite Hhead in Heq. discriminate Heq.
    - apply app_inv_head in Heq. change (py "}") with [125%N] in Heq.
      by apply joined_items_inj in Heq. }
  by rewrite <- Hp1, Hsorted, Hp2.
Qed.

Lemma dumps_sorted_determines_items_witness :
  JSON.dumps_sorted metadata1 = JSON.dumps_sorted metadata1_reordered
  <-> metadata1 ≡ₚ metadata1_reordered.
Proof.
  refine (dumps_sorted_determines_items metadata1 metadata1_reordered _ _).
  - by_computation.
  - by_computation.
Defined.

(** ** The program as a whole *)

Lemma cycle_events_routine cycle w : forallb routine (cycle_events cycle w) = true.
Proof. unfold cycle_events. cbv zeta. by destruct (_ && _). Qed.

Lemma main_loop_clean_run verifier nfts cycles w :
  (forall w', heap w' = heap w -> verifier nfts w' = (Ok true, w')) ->
  exists evs w',
    main_loop verifier nfts cycles w = (Ok tt, w')
    /\ trace w' = trace w ++ evs
    /\ forallb routine evs = true
    /\ drawn w' = drawn w + 3 * length cycles
    /\ ticks w' = ticks w + length cycles.
Proof.
  revert w. induction cycles as [|c cycles IH]; intros w Hv.
  - exists [], w. rewrite app_nil_r. simpl. repeat split; try lia; done.
  - rewrite main_loop_cons, Hv, stages_body_exact by done.
    destruct (IH (after_cycle c (emit (Print (CycleBanner c)) w)))
      as (evs & w' & -> & Ht & Hr & Hd & Hk).
    { intros w' Hw'. by apply Hv. }
    exists (Print (CycleBanner c)
              :: cycle_events c (emit (Print (CycleBanner c)) w) ++ evs), w'.
    split; [done|]. split; [|split; [|split]].
    + rewrite Ht. simpl. by rewrite <- !app_assoc.
    + cbn [forallb routine]. by rewrite forallb_app, cycle_events_routine, Hr.
    + rewrite Hd. simpl. lia.
    + rewrite Hk. simpl. lia.
Qed.

(** X17: whatever the random source and the clock give, [main] builds its
    three records, begins and completes all five cycles, and returns
    normally: it prints no error line and never the fatal line, takes 15
    random draws and 5 clock readings, and leaves behind exactly the three
    records it built. *)
Theorem main_completes (w : World) :
  exists evs w',
    main w = (Ok tt, w')
    /\ trace w' = trace w ++ evs
    /\ heap w' = heap w ++ mock_objects
    /\ cycles_begun evs = [1; 2; 3; 4; 5]%Z
    /\ stages evs = full_cycles 5
    /\ forallb routine evs = true
    /\ drawn w' = drawn w + 15
    /\ ticks w' = ticks w + 5.
Proof.
  destruct (main_run w) as (evs & w' & Hrun & Hh & Ht & Hb & Hs).
  destruct (main_loop_clean_run cross_verify_nfts
              [length (heap w); S (length (heap w)); S (S (length (heap w)))]
              [1; 2; 3; 4; 5]%Z (with_heap (heap w ++ mock_objects) w))
    as (evs' & w'' & Hrun' & Ht' & Hr & Hd & Hk).
  { intros w1 Hw1. by apply mock_nfts_verify_in. }
  assert (w'' = w' /\ evs' = evs) as [-> ->].
  { unfold main, bind at 1 in Hrun. rewrite mock_nfts_alloc in Hrun.
    change (range 1 (MAX_CYCLES + 1)) with [1; 2; 3; 4; 5]%Z in Hrun.
    rewrite Hrun' in Hrun. injection Hrun as ->. split; [done|].
    simpl in Ht'. rewrite Ht in Ht'. by apply app_inv_head in Ht'. }
  exists evs, w'. by repeat split.
Qed.

(** X18: think followed by act, as [main] chains them, agree on any
    non-empty reading: two lines are printed, the mean with its label and
    then the nominal line exactly when the mean is within the band, the
    warning line otherwise, both carrying the same mean; nothing is raised. *)
Theorem think_then_act (readings : dict str float) (w : World) :
  readings <> [] ->
  let avg := arithmetic_mean (map snd readings) in
  let nominal := ((24.0 <=? avg) && (avg <=? 26.0))%float in
  (' (status, value) <- think readings ;; act status value) w
  = (Ok tt,
     emit (Print (if nominal then AllSystemsNominal avg else OutsideNormalRange avg))
       (emit (Print (AverageReading avg (if nominal then py "normal" else py "anomaly")))
          w)).
Proof.
  intros Hne avg nominal. unfold bind. rewrite think_nonempty by done.
  cbv zeta. fold avg. fold nominal. unfold act.
  destruct nominal.
  - by rewrite bool_decide_eq_true_2.
  - by rewrite bool_decide_eq_false_2.
Qed.

Lemma think_then_act_witness :
  (' (status, value) <- think [(py "a", 24.0%float); (py "b", 26.0%float)] ;;
   act status value) (world_of [])
  = (Ok tt,
     emit (Print (AllSystemsNominal 25.0))
       (emit (Print (AverageReading 25.0 (py "normal"))) (world_of []))).
Proof.
  refine (think_then_act [(py "a", 24.0%float); (py "b", 26.0%float)] (world_of []) _).
  discriminate.
Defined.
